(** * Library_Assistant: hybrid retrieval and context assembly

    A shallow embedding of the retrieval code of the repository
    ([core/library_assistant_toolbox/book_search_tool.py],
    [core/library_assistant_toolbox/sql_check_book_status_tool.py],
    [core/library_assistant_toolbox/pdf_reader_tool.py],
    [core/pdf_reader_toolbox/reference_search.py],
    [core/ingestion/docling_loader.py]) and the properties of it that the
    specification states or that the code shows.

    Python strings are modelled as [string], the UTF-8 encoding of the text;
    exceptions as an explicit [result]; calls to the external services (SQL
    Server, Chroma, the cross-encoder) as events of a trace. *)

From Stdlib Require Import ZArith String Ascii List Lia.
From stdpp Require Import base option list gmap strings sorting pretty.

Open Scope string_scope.
Open Scope list_scope.
Open Scope nat_scope.

(* ===================================================================== *)
(** * Python values, strings and exceptions *)
(* ===================================================================== *)

Module Py.

(** The values the code reads out of metadata dictionaries, SQL rows and
    JSON objects.  Of a value that is neither [None], a bool, an int nor a
    str (a list, a nested dict, a float, a Decimal) the code observes only
    its truth value and its [str()]: [VOther] carries both. *)
Inductive value :=
| VNone
| VBool (b : bool)
| VInt (z : Z)
| VStr (s : string)
| VOther (truth : bool) (repr : string).

(** [bool(v)] *)
Definition truthy (v : value) : bool :=
  match v with
  | VNone => false
  | VBool b => b
  | VInt z => negb (z =? 0)%Z
  | VStr s => negb (String.eqb s "")
  | VOther t _ => t
  end.

(** [str(v)] *)
Definition str (v : value) : string :=
  match v with
  | VNone => "None"
  | VBool true => "True"
  | VBool false => "False"
  | VInt z => pretty z
  | VStr s => s
  | VOther _ r => r
  end.

(** The whitespace of [str.strip()] and [str.isspace], by the bytes of its
    encoding.  On one byte: TAB, LF, VT, FF, CR, the four separators
    0x1c-0x1f and the space. *)
Definition is_space (c : ascii) : bool :=
  let n := nat_of_ascii c in
  ((9 <=? n)%nat && (n <=? 13)%nat) || ((28 <=? n)%nat && (n <=? 32)%nat).

(** On two bytes: U+0085 (C2 85) and U+00A0 (C2 A0). *)
Definition is_space2 (c1 c2 : ascii) : bool :=
  let n1 := nat_of_ascii c1 in
  let n2 := nat_of_ascii c2 in
  (n1 =? 194)%nat && ((n2 =? 133)%nat || (n2 =? 160)%nat).

(** On three bytes: U+1680 (E1 9A 80), U+2000 to U+200A (E2 80 80 to
    E2 80 8A), U+2028, U+2029 and U+202F (E2 80 A8, A9, AF), U+205F
    (E2 81 9F) and U+3000 (E3 80 80). *)
Definition is_space3 (c1 c2 c3 : ascii) : bool :=
  let n1 := nat_of_ascii c1 in
  let n2 := nat_of_ascii c2 in
  let n3 := nat_of_ascii c3 in
  ((n1 =? 225)%nat && (n2 =? 154)%nat && (n3 =? 128)%nat)
  || ((n1 =? 226)%nat && (n2 =? 128)%nat
      && (((128 <=? n3)%nat && (n3 <=? 138)%nat)
          || (n3 =? 168)%nat || (n3 =? 169)%nat || (n3 =? 175)%nat))
  || ((n1 =? 226)%nat && (n2 =? 129)%nat && (n3 =? 159)%nat)
  || ((n1 =? 227)%nat && (n2 =? 128)%nat && (n3 =? 128)%nat).

(** Whitespace characters are dropped from the head of the text, whether
    on one, two or three bytes; [sp2] and [sp3] are the tests on two and
    three bytes in the order in which the bytes are met. *)
Fixpoint lstrip_with (sp2 : ascii → ascii → bool) (sp3 : ascii → ascii → ascii → bool)
    (s : string) : string :=
  match s with
  | EmptyString => EmptyString
  | String c1 s1 =>
      if is_space c1 then lstrip_with sp2 sp3 s1
      else
        match s1 with
        | String c2 s2 =>
            if sp2 c1 c2 then lstrip_with sp2 sp3 s2
            else
              match s2 with
              | String c3 s3 => if sp3 c1 c2 c3 then lstrip_with sp2 sp3 s3 else s
              | EmptyString => s
              end
        | EmptyString => s
        end
  end.

(** [s.lstrip()] *)
Definition lstrip (s : string) : string := lstrip_with is_space2 is_space3 s.

(** [s.rstrip()]: the same from the end, where the bytes of a character
    are met last byte first. *)
Definition rstrip (s : string) : string :=
  String.rev (lstrip_with (λ c2 c1, is_space2 c1 c2) (λ c3 c2 c1, is_space3 c1 c2 c3)
                          (String.rev s)).

(** [s.strip()] *)
Definition strip (s : string) : string := rstrip (lstrip s).

(** [s.startswith(p)] *)
Definition startswith (s p : string) : bool := String.prefix p s.

(** [needle in s] *)
Fixpoint contains (needle s : string) : bool :=
  String.prefix needle s ||
  match s with
  | String _ s' => contains needle s'
  | EmptyString => false
  end.

Definition lower_ascii (c : ascii) : ascii :=
  let n := nat_of_ascii c in
  if (65 <=? n)%nat && (n <=? 90)%nat then ascii_of_nat (n + 32) else c.

(** [s.lower()] (ASCII letters) *)
Fixpoint lower (s : string) : string :=
  match s with
  | String c s' => String (lower_ascii c) (lower s')
  | EmptyString => EmptyString
  end.

(** The line feed ["\n"]. *)
Definition NL : string := String (ascii_of_nat 10) EmptyString.

(** [a or b], for an operand [b] that cannot raise *)
Definition or_ (a b : value) : value := if truthy a then a else b.

(** A byte [10xxxxxx] continues the encoding of a character. *)
Definition is_continuation (c : ascii) : bool :=
  let n := nat_of_ascii c in (128 <=? n)%nat && (n <? 192)%nat.

(** [s[:n]]: the first [n] characters of [s], each with all the bytes of
    its encoding. *)
Fixpoint slice_to (n : nat) (s : string) : string :=
  match s with
  | EmptyString => EmptyString
  | String c s' =>
      if is_continuation c then String c (slice_to n s')
      else match n with
           | O => EmptyString
           | S n' => String c (slice_to n' s')
           end
  end.

(** [sep.join(parts)] *)
Definition join (sep : string) (parts : list string) : string :=
  String.concat sep parts.

(** A raised exception: its class and [str(e)]. *)
Record exn := Exn { exn_class : string; exn_msg : string }.

(** The outcome of running a piece of code: a value or a raised
    exception. *)
Inductive result (A : Type) :=
| Ok (a : A)
| Raise (e : exn).
Arguments Ok {A} a.
Arguments Raise {A} e.

Definition is_ok {A} (r : result A) : bool :=
  match r with Ok _ => true | Raise _ => false end.

(** A stable sort: [x] is placed before the first element [y] of the
    sorted tail with [leb x y], so elements that compare equal keep their
    relative order.  This is the result of [list.sort] / [sorted], which
    are stable, for a total order [leb]. *)
Section StableSort.
Context {A : Type} (leb : A → A → bool).

Fixpoint insert_sorted (x : A) (l : list A) : list A :=
  match l with
  | [] => [x]
  | y :: l' => if leb x y then x :: l else y :: insert_sorted x l'
  end.

Fixpoint stable_sort (l : list A) : list A :=
  match l with
  | [] => []
  | x :: l' => insert_sorted x (stable_sort l')
  end.

End StableSort.

End Py.

Import Py.

(** A LangChain [Document]. *)
Record Document := mkDocument {
  page_content : string;
  metadata : gmap string value
}.

(** [d.get(k, default)] *)
Definition dict_get (d : gmap string value) (k : string) (default : value) : value :=
  match d !! k with
  | Some v => v
  | None => default
  end.

(* ===================================================================== *)
(** * book_search_tool.py: hybrid book search *)
(* ===================================================================== *)

Module BookSearch.

(** Calls that leave the process, in the order they are made. *)
Inductive event :=
| BuildRetrievalChain
| SqlFullText (query : string) (top_k : nat)
| SimilaritySearch (query : string) (k : nat)
| ModelScore (pairs : list (string * string))
| SqlBookDetails (isbns : list value).

(** A row of [SELECT TOP (:top_k) ISBN, TENSACH, NOIDUNG, HINHANHPATH]. *)
Record FtsRow := mkFtsRow {
  fts_ISBN : value;
  fts_TENSACH : value;
  fts_NOIDUNG : value;
  fts_HINHANHPATH : value
}.

(** A row of [SELECT ISBN, TENSACH, NOIDUNG, HINHANHPATH, GIA]. *)
Record DetailRow := mkDetailRow {
  ISBN : value;
  TENSACH : value;
  NOIDUNG : value;
  HINHANHPATH : value;
  GIA : value
}.

(** The services the pipeline talks to.  Each may answer or raise.
    [Score] is the type of the cross-encoder's scores (floats in the
    source; the code only compares them). *)
Record World (Score : Type) := mkWorld {
  sql_fulltext : string → nat → result (list FtsRow);
  similarity_search : string → nat → result (list Document);
  model_score : list (string * string) → result (list Score);
  sql_book_details : list value → result (list DetailRow)
}.
Arguments sql_fulltext {Score} _ _ _.
Arguments similarity_search {Score} _ _ _.
Arguments model_score {Score} _ _.
Arguments sql_book_details {Score} _ _.

(** Computations: the external calls made so far and the outcome. *)
Definition M (A : Type) : Type := list event * result A.

Definition ret {A} (a : A) : M A := ([], Ok a).

Definition bind {A B} (m : M A) (k : A → M B) : M B :=
  match m with
  | (t, Ok a) => let '(t', r) := k a in (t ++ t', r)
  | (t, Raise e) => (t, Raise e)
  end.

(** One external call. *)
Definition call {A} (ev : event) (r : result A) : M A := ([ev], r).

(** [try: m except Exception as e: h e] *)
Definition try_except {A} (m : M A) (h : exn → M A) : M A :=
  match m with
  | (t, Ok a) => (t, Ok a)
  | (t, Raise e) => let '(t', r) := h e in (t ++ t', r)
  end.

Notation "'let*' x ':=' m 'in' k" := (bind m (fun x => k))
  (at level 10, x name, m at level 100, k at level 200).

(** Number of (query, candidate) pairs handed to the scoring model. *)
Definition scored_candidates (t : list event) : nat :=
  sum_list ((λ ev, match ev with ModelScore pairs => length pairs | _ => 0 end) <$> t).

(** The dedup key of [UniqueEnsembleRetriever.invoke]:
    [str(doc.metadata.get("isbn", "")).strip()]. *)
Definition isbn_key (doc : Document) : string :=
  strip (str (dict_get (metadata doc) "isbn" (VStr ""))).

(** The hard filter of [UniqueEnsembleRetriever.invoke]: the loop over
    [docs], with [seen_isbns] the keys appended so far. *)
Fixpoint unique_loop (seen_isbns : gset string) (docs : list Document) : list Document :=
  match docs with
  | [] => []
  | doc :: docs' =>
      let isbn := isbn_key doc in
      if negb (String.eqb isbn "") && bool_decide (isbn ∉ seen_isbns)
      then doc :: unique_loop ({[isbn]} ∪ seen_isbns) docs'
      else unique_loop seen_isbns docs'
  end.

Definition unique_docs (docs : list Document) : list Document := unique_loop ∅ docs.

Section Pipeline.
Context {Score : Type}.
(** [a < b] on scores *)
Variable score_ltb : Score → Score → bool.
(** [EnsembleRetriever.weighted_reciprocal_rank] of LangChain: the fused
    list of the retrievers' result lists. *)
Variable weighted_reciprocal_rank : list (list Document) → list Document.
(** [format(v, ".4f")], which raises on values that are not numbers. *)
Variable format_4f : value → result string.
Variable W : World Score.

(** [SQLFullTextRetriever._get_relevant_documents] *)
Definition sql_get_relevant_documents (top_k : nat) (query : string) : M (list Document) :=
  try_except
    (let* results := call (SqlFullText query top_k) (sql_fulltext W query top_k) in
     ret ((λ row,
       let clean_isbn := strip (str (fts_ISBN row)) in
       mkDocument (str (fts_TENSACH row) +:+ NL +:+ str (fts_NOIDUNG row))
                  (<["isbn" := VStr clean_isbn]>
                   (<["tensach" := fts_TENSACH row]>
                    (<["hinhanh" := fts_HINHANHPATH row]> ∅)))) <$> results))
    (λ _, ret []).

(** [LoggingChromaRetriever._get_relevant_documents] *)
Definition chroma_get_relevant_documents (k : nat) (query : string) : M (list Document) :=
  let* docs := call (SimilaritySearch query k) (similarity_search W query k) in
  ret ((λ doc,
    let raw_isbn := dict_get (metadata doc) "isbn" (VStr "") in
    mkDocument (page_content doc) (<["isbn" := VStr (str raw_isbn)]> (metadata doc))) <$> docs).

(** [EnsembleRetriever.invoke] with [retrievers=[bm25, chroma]]: each
    retriever is invoked in turn, an exception of either propagates, and
    the two lists are fused. *)
Definition ensemble_invoke (top_k : nat) (query : string) : M (list Document) :=
  let* lexical := sql_get_relevant_documents top_k query in
  let* semantic := chroma_get_relevant_documents top_k query in
  ret (weighted_reciprocal_rank [lexical; semantic]).

(** [UniqueEnsembleRetriever.invoke] *)
Definition unique_ensemble_invoke (top_k : nat) (query : string) : M (list Document) :=
  let* docs := ensemble_invoke top_k query in
  ret (unique_docs docs).

(** [CrossEncoderReranker.compress_documents] of LangChain: one call of
    [model.score] on all the pairs, a stable sort by descending score, the
    first [top_n]. *)
Definition base_compress_documents (top_n : nat) (documents : list Document) (query : string)
  : M (list Document) :=
  let pairs := (λ doc, (query, page_content doc)) <$> documents in
  let* scores := call (ModelScore pairs) (model_score W pairs) in
  let docs_with_scores := zip documents scores in
  let result := stable_sort (λ a b, negb (score_ltb (snd a) (snd b))) docs_with_scores in
  ret (fst <$> take top_n result).

(** The debug loop of [LoggingCrossEncoderReranker.compress_documents]:
    only the formatting of the score can raise. *)
Fixpoint log_scores (compressed : list Document) : result unit :=
  match compressed with
  | [] => Ok tt
  | doc :: rest =>
      match format_4f (dict_get (metadata doc) "relevance_score" (VOther false "0.0")) with
      | Ok _ => log_scores rest
      | Raise e => Raise e
      end
  end.

(** [LoggingCrossEncoderReranker.compress_documents] *)
Definition compress_documents (top_n : nat) (documents : list Document) (query : string)
  : M (list Document) :=
  match documents with
  | [] => ret []
  | _ =>
      let* compressed := base_compress_documents top_n documents query in
      let* _ := ([], log_scores compressed) in
      ret compressed
  end.

(** [ContextualCompressionRetriever.invoke] over the chain built by
    [_get_retrieval_chain]: retrievers with [top_k = 20], reranker with
    [top_n = 5]. *)
Definition retrieval_chain_invoke (query : string) : M (list Document) :=
  let* docs := unique_ensemble_invoke 20 query in
  match docs with
  | [] => ret []
  | _ => compress_documents 5 docs query
  end.

(** [_fetch_full_book_details]: the rows by stripped ISBN; a later row
    replaces an earlier one with the same key. *)
Definition fetch_full_book_details (isbns : list value) : M (gmap string DetailRow) :=
  match isbns with
  | [] => ret ∅
  | _ =>
      try_except
        (let* rows := call (SqlBookDetails isbns) (sql_book_details W isbns) in
         ret (foldl (λ m row, <[strip (str (ISBN row)) := row]> m) ∅ rows))
        (λ _, ret ∅)
  end.

(** [full_details.get(isbn, {})].  The keys are strs, so a value that is
    not a str finds nothing (both retrievers store a str under "isbn"). *)
Definition details_get (full_details : gmap string DetailRow) (isbn : value) : option DetailRow :=
  match isbn with
  | VStr s => full_details !! s
  | _ => None
  end.

(** One block of the answer: the f-string of the loop over [final_docs]. *)
Definition context_part (full_details : gmap string DetailRow) (i : nat) (doc : Document) : string :=
  let isbn := dict_get (metadata doc) "isbn" VNone in
  let details := details_get full_details isbn in
  let tensach := or_ (from_option TENSACH VNone details) (dict_get (metadata doc) "tensach" VNone) in
  let noidung := or_ (from_option NOIDUNG VNone details) (dict_get (metadata doc) "noidung" VNone) in
  let gia := from_option GIA (VStr "N/A") details in
  "--- Sách " +:+ pretty (i + 1) +:+ " (ISBN: " +:+ str isbn +:+ ") ---" +:+ NL +:+
  "Tên sách: " +:+ str tensach +:+ NL +:+
  "Giá: " +:+ str gia +:+ NL +:+
  "Nội dung: " +:+ str noidung.

Definition MSG_NO_QUERY : string := "Lỗi: Không tìm thấy từ khóa tìm kiếm hợp lệ.".
Definition MSG_NO_BOOK : string := "Không tìm thấy sách nào phù hợp với từ khóa.".

(** The argument of the tool: [Union[str, dict]].  A dict is the list of
    its items in insertion order (keys are distinct). *)
Inductive tool_input :=
| InStr (query : string)
| InDict (query : list (string * value)).

(** [d.get(k)] on the items of a dict *)
Fixpoint items_get (d : list (string * value)) (k : string) : value :=
  match d with
  | [] => VNone
  | (k', v) :: d' => if String.eqb k' k then v else items_get d' k
  end.

(** [d.get("query") or list(d.values())[0]]: the second operand is
    evaluated, and can raise, only when the first is falsy. *)
Definition query_or_first_value (d : list (string * value)) : result value :=
  let q := items_get d "query" in
  if truthy q then Ok q
  else match d with
       | [] => Raise (Exn "IndexError" "list index out of range")
       | (_, v) :: _ => Ok v
       end.

(** [json.loads] on a text whose first character is an opening brace: the
    items of the object, or an exception. *)
Variable json_loads : string → result (list (string * value)).

(** The first lines of [book_search_tool]: the value of [clean_query]
    before the emptiness test. *)
Definition normalize_query (query : tool_input) : result value :=
  match query with
  | InDict d => query_or_first_value d
  | InStr s =>
      if startswith (strip s) "{" then
        match json_loads s with
        | Ok data =>
            match query_or_first_value data with
            | Ok v => Ok v
            | Raise _ => Ok (VStr s)
            end
        | Raise _ => Ok (VStr s)
        end
      else Ok (VStr s)
  end.

(** [book_search_tool] *)
Definition book_search_tool (query : tool_input) : M string :=
  let* clean_query := ([], normalize_query query) in
  if negb (truthy clean_query) then ret MSG_NO_QUERY
  else
    let clean_query := strip (str clean_query) in
    let* _ := call BuildRetrievalChain (Ok tt) in
    let* final_docs := retrieval_chain_invoke clean_query in
    let top_isbns := (λ doc, dict_get (metadata doc) "isbn" VNone) <$> final_docs in
    let* full_details := fetch_full_book_details top_isbns in
    let context_parts := imap (context_part full_details) final_docs in
    match context_parts with
    | [] => ret MSG_NO_BOOK
    | _ =>
        ret ("Tìm thấy " +:+ pretty (length context_parts) +:+ " sách phù hợp:" +:+ NL +:+ NL +:+
             join (NL +:+ NL) context_parts)
    end.

End Pipeline.

End BookSearch.

(* ===================================================================== *)
(** * reference_search.py: the per-document retrieval system *)
(* ===================================================================== *)

Module ReferenceSearch.

(** A chunk of a PDF: a [Document] whose metadata the ingestion pipeline
    wrote.  [page] is an int there ([page_no]); a document built elsewhere
    may lack it.  The other fields (source, bboxes, type, parent_heading)
    are kept as they are. *)
Record Chunk := mkChunk {
  chunk_content : string;
  chunk_page : option Z;
  chunk_fields : gmap string value
}.

(** The Chroma collection as the code sees it between two writes: its
    records in the order [get] returns them, and the pages for which
    [get(where={"page": p})] raises instead of answering. *)
Record Collection := mkCollection {
  records : list Chunk;
  get_error : Z → option exn
}.

(** [collection.get(where={"page": page}, include=["documents", "metadatas"])] *)
Definition collection_get (c : Collection) (page : Z) : result (list Chunk) :=
  match get_error c page with
  | Some e => Raise e
  | None => Ok (filter (λ r, chunk_page r = Some page) (records c))
  end.

(** The set [pages_to_fetch]: the values of [doc.metadata.get("page", 1)]. *)
Definition page_set (chunks : list Chunk) : gset Z :=
  list_to_set ((λ doc, default 1%Z (chunk_page doc)) <$> chunks).

(** [sorted(pages_to_fetch)] *)
Definition pages_to_fetch (chunks : list Chunk) : list Z :=
  merge_sort Z.le (elements (page_set chunks)).

(** What the loop reads for one page: the records of the answer, none when
    the call raised. *)
Definition page_results (c : Collection) (page : Z) : list Chunk :=
  match collection_get c page with
  | Ok rs => rs
  | Raise _ => []
  end.

(** The inner loop over one page's results: a record is appended unless
    its content was seen. *)
Fixpoint add_unseen (seen_contents : gset string) (page_results : list Chunk)
  : gset string * list Chunk :=
  match page_results with
  | [] => (seen_contents, [])
  | r :: rest =>
      if bool_decide (chunk_content r ∈ seen_contents)
      then add_unseen seen_contents rest
      else
        let '(seen', added) := add_unseen ({[chunk_content r]} ∪ seen_contents) rest in
        (seen', r :: added)
  end.

(** The outer loop over the pages; a page whose [get] raises adds
    nothing. *)
Fixpoint expand_loop (c : Collection) (seen_contents : gset string) (pages : list Z)
  : list Chunk :=
  match pages with
  | [] => []
  | page :: pages' =>
      let '(seen', added) := add_unseen seen_contents (page_results c page) in
      added ++ expand_loop c seen' pages'
  end.

(** The sort key [(d.metadata.get("page", 0), d.page_content[:50])]. *)
Definition sort_key (d : Chunk) : Z * string :=
  (default 0%Z (chunk_page d), slice_to 50 (chunk_content d)).

(** [k1 <= k2] on the keys: tuples compare lexicographically, strings by
    code point (which is the order of their encodings). *)
Definition key_leb (k1 k2 : Z * string) : bool :=
  (fst k1 <? fst k2)%Z || ((fst k1 =? fst k2)%Z && String.leb (snd k1) (snd k2)).

Definition chunk_leb (d1 d2 : Chunk) : bool := key_leb (sort_key d1) (sort_key d2).

(** The list [expanded_docs] before it is sorted. *)
Definition fetched_docs (c : Collection) (chunks : list Chunk) : list Chunk :=
  expand_loop c ∅ (pages_to_fetch chunks).

(** [ReferenceRetrievalSystem._expand_same_page] *)
Definition expand_same_page (c : Collection) (chunks : list Chunk) : list Chunk :=
  stable_sort chunk_leb (fetched_docs c chunks).

(** ** Bulk indexing *)

(** What [index_documents] meets outside the process: the outcome of each
    call of [collection.upsert] (by batch index and by the number of
    retries made before it), the time at which each batch's future
    completes, and the outcome of [collection.count()]. *)
Record IndexWorld := mkIndexWorld {
  upsert : nat → nat → result unit;
  finish_time : nat → nat;
  collection_count : result nat
}.

Definition max_retries : nat := 3.

(** The test applied to [str(e).lower()] in [process_batch]. *)
Definition is_rate_limit (e : exn) : bool :=
  let error_msg := lower (exn_msg e) in
  contains "429" error_msg || contains "quota" error_msg || contains "limit" error_msg.

Definition batch_ok (current_batch : nat) : string :=
  "✅ Batch " +:+ pretty current_batch +:+ " OK".
Definition batch_failed (current_batch : nat) : string :=
  "❌ Batch " +:+ pretty current_batch +:+ " FAILED after " +:+ pretty max_retries +:+ " retries".
Definition batch_error (current_batch : nat) (e : exn) : string :=
  "❌ Batch " +:+ pretty current_batch +:+ " ERROR: " +:+ exn_msg e.

(** The [while retry_count <= max_retries] loop of [process_batch];
    [retries_left] is [max_retries - retry_count]. *)
Fixpoint process_batch_loop (w : IndexWorld) (batch_idx retries_left retry_count : nat) : string :=
  let current_batch := batch_idx + 1 in
  match upsert w batch_idx retry_count with
  | Ok _ => batch_ok current_batch
  | Raise e =>
      if is_rate_limit e then
        match retries_left with
        | O => batch_failed current_batch
        | S retries_left' => process_batch_loop w batch_idx retries_left' (S retry_count)
        end
      else batch_error current_batch e
  end.

(** [process_batch(batch_idx, batch_data)]: the string it returns. *)
Definition process_batch (w : IndexWorld) (batch_idx : nat) : string :=
  process_batch_loop w batch_idx max_retries 0.

(** [documents[i : i + batch_size] for i in range(0, total, batch_size)];
    [fuel] bounds the number of batches. *)
Fixpoint split_batches {A} (fuel batch_size : nat) (documents : list A) : list (list A) :=
  match fuel, documents with
  | S fuel', _ :: _ =>
      take batch_size documents :: split_batches fuel' batch_size (drop batch_size documents)
  | _, _ => []
  end.

Definition make_batches {A} (batch_size : nat) (documents : list A) : list (list A) :=
  split_batches (length documents) batch_size documents.

(** [as_completed(future_to_batch)]: the batch indices by completion
    time. *)
Definition as_completed (w : IndexWorld) (n_batches : nat) : list nat :=
  stable_sort (λ i j, finish_time w i <=? finish_time w j)%nat (seq 0 n_batches).

(** The results kept in [failed_results]: those in which ["OK"] does not
    occur. *)
Definition failed_results (w : IndexWorld) (n_batches : nat) : list string :=
  List.filter (λ result, negb (contains "OK" result))
              (process_batch w <$> as_completed w n_batches).

(** [ReferenceRetrievalSystem.index_documents] *)
Definition index_documents {A} (w : IndexWorld) (documents : list A) (batch_size : nat)
  : result unit :=
  if (batch_size =? 0)%nat
  then Raise (Exn "ZeroDivisionError" "integer division or modulo by zero")
  else
    let batches := make_batches batch_size documents in
    let failed := failed_results w (length batches) in
    match failed with
    | [] =>
        match collection_count w with
        | Ok _ => Ok tt
        | Raise e => Raise e
        end
    | _ =>
        let error_summary := join "; " (take 3 failed) in
        Raise (Exn "Exception"
                 ("Indexing incomplete. " +:+ pretty (length failed) +:+
                  " batches failed. Details: " +:+ error_summary))
    end.

End ReferenceSearch.

(* ===================================================================== *)
(** * pdf_reader_tool.py: the cache of retrieval systems *)
(* ===================================================================== *)

Module PdfReaderTool.

(** A [ReferenceRetrievalSystem] object: the path it was built for and the
    number of the build that made it. *)
Record Retriever := mkRetriever {
  retriever_path : string;
  retriever_build : nat
}.

(** [PDF_RETRIEVAL_CACHE] and the record of the index builds made so far
    (path, and whether ingestion and indexing went through). *)
Record State := mkState {
  cache : gmap string Retriever;
  builds : list (string * bool)
}.

Definition initial : State := mkState ∅ [].

(** The outcome of [process_pdf] followed by [index_documents] for a path,
    at a given build. *)
Definition Builder := string → nat → result unit.

(** [get_or_create_retriever], run from start to end. *)
Definition get_or_create_retriever (build : Builder) (pdf_path : string) (st : State)
  : State * result Retriever :=
  match cache st !! pdf_path with
  | Some r => (st, Ok r)
  | None =>
      let n := length (builds st) in
      match build pdf_path n with
      | Raise e => (mkState (cache st) (builds st ++ [(pdf_path, false)]), Raise e)
      | Ok _ =>
          let retriever_system := mkRetriever pdf_path n in
          (mkState (<[pdf_path := retriever_system]> (cache st))
                   (builds st ++ [(pdf_path, true)]),
           Ok retriever_system)
      end
  end.

(** Calls made one after the other. *)
Fixpoint run_calls (build : Builder) (paths : list string) (st : State) : State :=
  match paths with
  | [] => st
  | p :: paths' => run_calls build paths' (fst (get_or_create_retriever build p st))
  end.

(** Number of index builds made for a path. *)
Definition builds_of (pdf_path : string) (st : State) : nat :=
  length (List.filter (λ b, String.eqb (fst b) pdf_path) (builds st)).

(** Number of index builds for a path that went through. *)
Definition good_builds_of (pdf_path : string) (st : State) : nat :=
  length (List.filter (λ b, String.eqb (fst b) pdf_path && snd b) (builds st)).

(** The successful builds recorded for a path: one if the path is cached,
    none otherwise. *)
Definition cache_counts (st : State) : Prop :=
  ∀ p, good_builds_of p st = match cache st !! p with Some _ => 1 | None => 0 end.

(** ** Calls in several threads

    A call in progress is at one of three points of the function: before
    the membership test, between the test and the end of the build, or
    between the build and the assignment to the cache.  The interpreter may
    switch threads between any two of them: nothing in the function holds
    a lock. *)
Inductive thread :=
| Checking (pdf_path : string)
| Building (pdf_path : string)
| Storing (pdf_path : string) (retriever_system : Retriever)
| Returned (r : result Retriever).

(** One step of a thread on the shared state. *)
Definition thread_step (build : Builder) (t : thread) (st : State) : State * thread :=
  match t with
  | Checking p =>
      match cache st !! p with
      | Some r => (st, Returned (Ok r))
      | None => (st, Building p)
      end
  | Building p =>
      let n := length (builds st) in
      match build p n with
      | Raise e => (mkState (cache st) (builds st ++ [(p, false)]), Returned (Raise e))
      | Ok _ => (mkState (cache st) (builds st ++ [(p, true)]), Storing p (mkRetriever p n))
      end
  | Storing p r => (mkState (<[p := r]> (cache st)) (builds st), Returned (Ok r))
  | Returned r => (st, Returned r)
  end.

(** The shared state and the threads. *)
Definition System : Type := State * list thread.

(** The thread [i] makes one step. *)
Definition system_step (build : Builder) (i : nat) (sys : System) : System :=
  match snd sys !! i with
  | Some t =>
      let '(st', t') := thread_step build t (fst sys) in
      (st', <[i := t']> (snd sys))
  | None => sys
  end.

(** A run under a schedule: the list of the threads that step, in order. *)
Definition run_schedule (build : Builder) (schedule : list nat) (sys : System) : System :=
  foldl (λ s i, system_step build i s) sys schedule.

End PdfReaderTool.

(* ===================================================================== *)
(** * More operations on strings *)
(* ===================================================================== *)

Module Text.

(** [c in s] for a character of the ASCII range *)
Fixpoint has_char (c : ascii) (s : string) : bool :=
  match s with
  | EmptyString => false
  | String c' s' => Ascii.eqb c c' || has_char c s'
  end.

(** [s.replace(a, b)] for two characters of the ASCII range *)
Fixpoint replace_char (a b : ascii) (s : string) : string :=
  match s with
  | EmptyString => EmptyString
  | String c s' => String (if Ascii.eqb c a then b else c) (replace_char a b s')
  end.

(** [len(s)]: the number of characters, that is of bytes that do not
    continue an encoding. *)
Fixpoint py_len (s : string) : nat :=
  match s with
  | EmptyString => 0
  | String c s' => (if is_continuation c then 0 else 1) + py_len s'
  end.

End Text.

(* ===================================================================== *)
(** * reference_search.py: search and metadata look-ups *)
(* ===================================================================== *)

Module ReferenceOps.
Import ReferenceSearch.

Global Instance value_eq_dec : EqDecision value.
Proof. solve_decision. Defined.

(** The [where] filters the code passes to Chroma: [{field: v}] and
    [{field: {"$in": vs}}]. *)
Inductive where_filter :=
| WhereEq (field : string) (v : value)
| WhereIn (field : string) (vs : list value).

(** The metadata of a chunk under a key. *)
Definition field_value (d : Chunk) (field : string) : option value :=
  if String.eqb field "page" then VInt <$> chunk_page d else chunk_fields d !! field.

(** Whether a record passes a filter. *)
Definition matches (w : where_filter) (d : Chunk) : bool :=
  match w with
  | WhereEq field v => bool_decide (field_value d field = Some v)
  | WhereIn field vs =>
      match field_value d field with
      | Some v => bool_decide (v ∈ vs)
      | None => false
      end
  end.

(** The collection with the calls the other methods make: [query] (the
    hits for a text, a number of results and a filter), [get] with a filter
    and a limit, and [get] of everything; each may raise. *)
Record Store := mkStore {
  store_collection : Collection;
  query_answer : string → nat → option where_filter → result (list Chunk);
  get_where_error : where_filter → option exn;
  get_all_error : option exn
}.

(** [collection.get(where=where_filter, include=[...], limit=limit)]: the
    first [limit] records that pass the filter. *)
Definition collection_get_where (s : Store) (w : where_filter) (limit : nat)
  : result (list Chunk) :=
  match get_where_error s w with
  | Some e => Raise e
  | None => Ok (take limit (List.filter (matches w) (records (store_collection s))))
  end.

(** [ReferenceRetrievalSystem.search] *)
Definition search (s : Store) (query : string) (top_k : nat) (expand : bool)
    (filter : option where_filter) : list Chunk :=
  match query_answer s query top_k filter with
  | Raise _ => []
  | Ok [] => []
  | Ok initial_docs =>
      if expand then expand_same_page (store_collection s) initial_docs
      else initial_docs
  end.

(** [max(pages)] for a non-empty list, from its first element on. *)
Definition max_of (first : Z) (rest : list Z) : Z := foldl Z.max first rest.

(** [ReferenceRetrievalSystem.get_max_page] *)
Definition get_max_page (s : Store) : Z :=
  match get_all_error s with
  | Some _ => 1%Z
  | None =>
      match (λ m, default 0%Z (chunk_page m)) <$> records (store_collection s) with
      | [] => 1%Z
      | page :: pages => max_of page pages
      end
  end.

(** [d.metadata.get("bboxes", "")] when it is a str, as the ingestion
    writes it. *)
Definition bboxes_str (d : Chunk) : option string :=
  match chunk_fields d !! "bboxes" with
  | None => Some ""
  | Some (VStr b) => Some b
  | Some _ => None
  end.

(** The sort key [(d.metadata.get("page", 0), d.metadata.get("bboxes", ""))]. *)
Definition meta_key (d : Chunk) : Z * string :=
  (default 0%Z (chunk_page d), default "" (bboxes_str d)).

Definition meta_leb (d1 d2 : Chunk) : bool := key_leb (meta_key d1) (meta_key d2).

Section Fetch.
(** What [list.sort] does when the bboxes of some chunk is not a str:
    values of different types do not compare, and whether two of them meet
    depends on the sort. *)
Variable sort_other : list Chunk → result (list Chunk).

(** The list [fetched_docs] of [fetch_by_metadata] before the sort. *)
Definition fetched_by_metadata (s : Store) (w : where_filter) (limit : nat) : list Chunk :=
  match collection_get_where s w limit with
  | Ok rs => (add_unseen ∅ rs).2
  | Raise _ => []
  end.

(** [ReferenceRetrievalSystem.fetch_by_metadata] *)
Definition fetch_by_metadata (s : Store) (w : where_filter) (limit : nat)
  : result (list Chunk) :=
  let fetched := fetched_by_metadata s w limit in
  if forallb (λ d, bool_decide (is_Some (bboxes_str d))) fetched
  then Ok (stable_sort meta_leb fetched)
  else sort_other fetched.

(** [ReferenceRetrievalSystem.get_intro_chunks] *)
Definition get_intro_chunks (s : Store) (pages : list Z) : result (list Chunk) :=
  match pages with
  | [] => Raise (Exn "IndexError" "list index out of range")
  | [page] => fetch_by_metadata s (WhereEq "page" (VInt page)) 20
  | _ => fetch_by_metadata s (WhereIn "page" (VInt <$> pages)) 20
  end.

End Fetch.

(** The upsert of batch [i] raises a rate-limit error at attempt [k]. *)
Definition rate_limited_at (w : IndexWorld) (i k : nat) : Prop :=
  ∃ e, upsert w i k = Raise e ∧ is_rate_limit e = true.

End ReferenceOps.

(* ===================================================================== *)
(** * book_search_tool.py and sql_check_book_status_tool.py: the helpers *)
(* ===================================================================== *)

Module BookTools.
Import BookSearch.

(** One dict of the list that [search_books_simple] returns. *)
Record BookRecord := mkBookRecord {
  rec_isbn : value;
  rec_tensach : value;
  rec_noidung : value;
  rec_hinhanh : value;
  rec_gia : value
}.

(** The dict built for one document in the loop of
    [search_books_simple]. *)
Definition book_record (full_details : gmap string DetailRow) (doc : Document) : BookRecord :=
  let isbn := dict_get (metadata doc) "isbn" VNone in
  let details := details_get full_details isbn in
  mkBookRecord
    isbn
    (or_ (from_option TENSACH VNone details) (dict_get (metadata doc) "tensach" VNone))
    (or_ (from_option NOIDUNG VNone details) (dict_get (metadata doc) "noidung" VNone))
    (or_ (from_option HINHANHPATH VNone details) (dict_get (metadata doc) "hinhanh" VNone))
    (from_option GIA VNone details).

Section Simple.
Context {Score : Type}.
Variable score_ltb : Score → Score → bool.
Variable weighted_reciprocal_rank : list (list Document) → list Document.
Variable format_4f : value → result string.
Variable W : World Score.

(** [search_books_simple] *)
Definition search_books_simple (query : string) : M (list BookRecord) :=
  let* _ := call BuildRetrievalChain (Ok tt) in
  let* final_docs :=
    retrieval_chain_invoke score_ltb weighted_reciprocal_rank format_4f W query in
  let top_isbns := (λ doc, dict_get (metadata doc) "isbn" VNone) <$> final_docs in
  let* full_details := fetch_full_book_details W top_isbns in
  ret (book_record full_details <$> final_docs).

End Simple.

(** The row of the status query: the title and the two counts. *)
Record StatusRow := mkStatusRow {
  st_TENSACH : value;
  SoLuongCoSan : Z;
  SoLuongDangMuon : Z
}.

(** [d.get(key) or list(d.values())[0]] *)
Definition value_or_first (key : string) (d : list (string * value)) : result value :=
  let v := items_get d key in
  if truthy v then Ok v
  else match d with
       | [] => Raise (Exn "IndexError" "list index out of range")
       | (_, first) :: _ => Ok first
       end.

Definition MSG_NO_ISBN : string := "Lỗi: Không tìm thấy mã ISBN hợp lệ trong yêu cầu.".

Section Status.
Variable json_loads : string → result (list (string * value)).
(** The status query for an ISBN: a row, no row, or an exception. *)
Variable status_query : string → result (option StatusRow).

(** The first lines of [sql_check_book_status_tool]: the value of
    [clean_isbn] before the emptiness test. *)
Definition normalize_isbn (isbn : tool_input) : result value :=
  match isbn with
  | InDict d => value_or_first "isbn" d
  | InStr s =>
      if startswith (strip s) "{" then
        match json_loads s with
        | Ok data =>
            match value_or_first "isbn" data with
            | Ok v => Ok v
            | Raise _ => Ok (VStr s)
            end
        | Raise _ => Ok (VStr s)
        end
      else Ok (VStr s)
  end.

(** The answer for a row of the status query. *)
Definition status_answer (clean_isbn : string) (row : StatusRow) : string :=
  if (0 <? SoLuongCoSan row)%Z
  then "Sách '" +:+ str (st_TENSACH row) +:+ "' (ISBN: " +:+ clean_isbn +:+ ") hiện còn "
       +:+ pretty (SoLuongCoSan row) +:+ " cuốn có sẵn và có "
       +:+ pretty (SoLuongDangMuon row) +:+ " cuốn đang được mượn."
  else "Rất tiếc, sách '" +:+ str (st_TENSACH row) +:+ "' (ISBN: " +:+ clean_isbn
       +:+ ") hiện đã được mượn hết. Có "
       +:+ pretty (SoLuongDangMuon row) +:+ " cuốn đang được mượn.".

(** [sql_check_book_status_tool]: the ISBNs the database was asked for,
    and the outcome. *)
Definition sql_check_book_status_tool (isbn : tool_input) : list string * result string :=
  match normalize_isbn isbn with
  | Raise e => ([], Raise e)
  | Ok clean_isbn =>
      if negb (truthy clean_isbn) then ([], Ok MSG_NO_ISBN)
      else
        let clean_isbn := strip (str clean_isbn) in
        ([clean_isbn],
         Ok match status_query clean_isbn with
            | Raise e => "Lỗi khi truy vấn database: " +:+ exn_msg e
            | Ok None =>
                "Không tìm thấy thông tin cho sách có ISBN: " +:+ clean_isbn +:+ "."
            | Ok (Some row) => status_answer clean_isbn row
            end)
  end.

(** [check_book_status_simple] *)
Definition check_book_status_simple (isbn : string) : option StatusRow :=
  match status_query (strip isbn) with
  | Ok row => row
  | Raise _ => None
  end.

End Status.

End BookTools.

(* ===================================================================== *)
(** * pdf_reader_tool.py: the search in one PDF *)
(* ===================================================================== *)

Module PdfSearch.
Import ReferenceSearch ReferenceOps PdfReaderTool Text.

(** One block of the answer of [pdf_reader_search]. *)
Definition context_part (pdf_path : string) (i : nat) (doc : Chunk) : string :=
  let page := match chunk_page doc with Some p => pretty p | None => "?" end in
  let bbox := match chunk_fields doc !! "bbox" with Some v => str v | None => "[]" end in
  let content := replace_char (ascii_of_nat 10) " " (chunk_content doc) in
  "[ref_" +:+ pretty (i + 1) +:+ "] (Trang " +:+ page +:+ "): " +:+ content +:+ NL +:+
  "Metadata_Hidden: {'bbox': " +:+ bbox +:+ ", 'source': '" +:+ pdf_path +:+ "'}".

Section Search.
(** [os.path.exists] *)
Variable path_exists : string → bool.
Variable build : Builder.
(** The collection behind a retrieval system. *)
Variable store_of : Retriever → Store.

(** [pdf_reader_search]: the state it leaves and the text it returns. *)
Definition pdf_reader_search (pdf_path query : string) (st : State) : State * string :=
  if negb (path_exists pdf_path)
  then (st, "Lỗi: Không tìm thấy file PDF tại đường dẫn: " +:+ pdf_path)
  else
    match get_or_create_retriever build pdf_path st with
    | (st', Raise e) => (st', "Đã xảy ra lỗi khi xử lý file PDF: " +:+ exn_msg e)
    | (st', Ok retriever) =>
        match search (store_of retriever) query 5 true None with
        | [] => (st', "Không tìm thấy thông tin nào liên quan trong tài liệu này.")
        | results =>
            let final_context := join (NL +:+ NL) (imap (context_part pdf_path) results) in
            (st', "Dưới đây là các đoạn trích tìm được từ tài liệu:" +:+ NL +:+ NL
                  +:+ final_context)
        end
    end.

(** Searches made one after the other. *)
Fixpoint run_searches (requests : list (string * string)) (st : State) : State :=
  match requests with
  | [] => st
  | (pdf_path, query) :: rest => run_searches rest (pdf_reader_search pdf_path query st).1
  end.

End Search.

(** Every build on record is of a path that existed. *)
Definition builds_exist (path_exists : string → bool) (st : State) : Prop :=
  ∀ b, b ∈ builds st → path_exists b.1 = true.

(** Every cached retriever was built for the path it is stored under, by a
    build that is on record. *)
Definition cache_sound (st : State) : Prop :=
  ∀ p r, cache st !! p = Some r →
         retriever_path r = p ∧ builds st !! retriever_build r = Some (p, true).

End PdfSearch.

(* ===================================================================== *)
(** * docling_loader.py: from the items of a document to chunks *)
(* ===================================================================== *)

Module Ingestion.
Import Text.

(** The classes of Docling items the loop tells apart: a section header,
    a table, a text item, another item with a [text] attribute, an item
    without one. *)
Inductive item_kind :=
| SectionHeaderItem
| TableItem
| TextItem
| OtherTextItem
| OtherItem.

Section Loader.
(** A bounding box, as [bbox.as_tuple()] gives it. *)
Context {Bbox : Type}.

(** An item: its class, its text ([item.text], or for a table its
    Markdown export) and its provenance entries (page number, and bounding
    box if any). *)
Record Item := mkItem {
  item_class : item_kind;
  item_text : string;
  item_prov : list (Z * option Bbox)
}.

(** A chunk under construction.  [doc_bboxes] is the list that the JSON
    text of the bboxes metadata encodes. *)
Record Doc := mkDoc {
  doc_content : string;
  doc_source : string;
  doc_filename : string;
  doc_page : Z;
  doc_bboxes : list Bbox;
  doc_type : string;
  doc_heading : string
}.

(** [content] after the chain of [isinstance] tests. *)
Definition item_content (item : Item) : string :=
  match item_class item with
  | SectionHeaderItem => strip (item_text item)
  | TableItem => item_text item
  | TextItem => strip (item_text item)
  | OtherTextItem => strip (item_text item)
  | OtherItem => ""
  end.

(** [item_type] after the chain of [isinstance] tests. *)
Definition item_type (item : Item) : string :=
  match item_class item with
  | SectionHeaderItem => "heading"
  | TableItem => "table"
  | _ => "text"
  end.

(** [_get_bbox_list] *)
Definition get_bbox_list (item : Item) : list Bbox :=
  omap snd (item_prov item).

(** [page_no]: the page of the first provenance entry, 1 without any. *)
Definition item_page (item : Item) : Z :=
  match item_prov item with
  | [] => 1%Z
  | (page_no, _) :: _ => page_no
  end.

(** The state of the loop: [langchain_docs], last chunk first, and
    [current_heading]. *)
Record LoopState := mkLoopState {
  docs_rev : list Doc;
  current_heading : string
}.

(** The test that decides whether an item joins the last chunk. *)
Definition joins (last : Doc) (type : string) (page_no : Z) (heading : string) : bool :=
  String.eqb type "text" && String.eqb (doc_type last) "text"
  && (doc_page last =? page_no)%Z && String.eqb (doc_heading last) heading
  && (py_len (doc_content last) <? 1000).

(** One turn of the loop over [doc.iterate_items()]. *)
Definition loop_step (source filename : string) (st : LoopState) (item : Item) : LoopState :=
  let content := item_content item in
  let heading :=
    match item_class item with
    | SectionHeaderItem => content
    | _ => current_heading st
    end in
  if String.eqb content "" then mkLoopState (docs_rev st) heading
  else
    let page_no := item_page item in
    let fresh := mkDoc content source filename page_no (get_bbox_list item)
                       (item_type item) heading in
    match docs_rev st with
    | last :: rest =>
        if joins last (item_type item) page_no heading
        then mkLoopState
               (mkDoc (doc_content last +:+ NL +:+ content) (doc_source last)
                      (doc_filename last) (doc_page last)
                      (doc_bboxes last ++ get_bbox_list item)
                      (doc_type last) (doc_heading last) :: rest)
               heading
        else mkLoopState (fresh :: docs_rev st) heading
    | [] => mkLoopState [fresh] heading
    end.

(** The loop of [process_pdf] over the items of the converted document. *)
Definition process_items (source filename : string) (items : list Item) : list Doc :=
  reverse (docs_rev (foldl (loop_step source filename) (mkLoopState [] "N/A") items)).

(** The contents of the items that are not skipped, in order. *)
Definition kept_contents (items : list Item) : list string :=
  List.filter (λ c, negb (String.eqb c "")) (item_content <$> items).

(** Two chunks in a row, the later one first: if both are text, on the
    same page and under the same heading, the earlier one is full. *)
Definition greedy (docs : list Doc) : Prop :=
  ∀ pre later earlier post,
    docs = pre ++ later :: earlier :: post →
    doc_type earlier = "text" → doc_type later = "text" →
    doc_page earlier = doc_page later → doc_heading earlier = doc_heading later →
    1000 ≤ py_len (doc_content earlier).

End Loader.

Arguments Item : clear implicits.
Arguments Doc : clear implicits.
Arguments LoopState : clear implicits.

End Ingestion.

(* ===================================================================== *)
(** * Concrete services and inputs *)
(* ===================================================================== *)

Module Scenario.
Import BookSearch.

Definition book (isbn title : string) : Document :=
  mkDocument title (<["isbn" := VStr isbn]> (<["tensach" := VStr title]> ∅)).

Definition row (isbn title : string) : FtsRow :=
  mkFtsRow (VStr isbn) (VStr title) (VStr "...") VNone.

Definition three_rows : list FtsRow :=
  [row "111" "Python co ban"; row "222" "Lap trinh Python"; row "333" "Hoc may"].

Definition chroma_down : exn := Exn "ConnectionError" "chroma unavailable".
Definition scorer_down : exn := Exn "RuntimeError" "cross encoder unavailable".

(** Fusion by concatenation, enough to run the pipeline on examples. *)
Definition concat_fusion (doc_lists : list (list Document)) : list Document :=
  concat doc_lists.

Definition format_any (v : value) : result string := Ok "0.0000".

Definition no_json (s : string) : result (list (string * value)) :=
  Raise (Exn "JSONDecodeError" "Expecting property name").

(** The full-text search answers with three rows, Chroma raises. *)
Definition semantic_down : World Z :=
  mkWorld Z (λ _ _, Ok three_rows)
            (λ _ _, Raise chroma_down)
            (λ pairs, Ok ((λ _, 0%Z) <$> pairs))
            (λ _, Ok []).

(** Both sources answer, the cross-encoder raises. *)
Definition scoring_down : World Z :=
  mkWorld Z (λ _ _, Ok three_rows)
            (λ _ _, Ok [])
            (λ _, Raise scorer_down)
            (λ _, Ok []).

(** Every service answers. *)
Definition all_up : World Z :=
  mkWorld Z (λ _ _, Ok three_rows)
            (λ _ _, Ok [])
            (λ pairs, Ok ((λ _, 0%Z) <$> pairs))
            (λ _, Ok []).

(** [json.loads] on the texts used below: the empty object parses. *)
Definition json_braces (s : string) : result (list (string * value)) :=
  if String.eqb (strip s) "{}" then Ok []
  else Raise (Exn "JSONDecodeError" "Expecting property name").

Definition two_books : list Document := [book "111" "Python co ban"; book "222" "Hoc may"].

Definition many_books : list Document := (λ i, book (pretty i) "Sach") <$> seq 1 21.

Import ReferenceSearch.

Definition chunk_b : Chunk := mkChunk "b" (Some 3%Z) ∅.
Definition chunk_a : Chunk := mkChunk "a" (Some 3%Z) ∅.

(** Page 3 holds two chunks, stored in the order b, a. *)
Definition page3 : Collection := mkCollection [chunk_b; chunk_a] (λ _, None).

Definition broken_pipe : exn := Exn "Exception" "BROKEN pipe".

(** Every upsert raises an error that is not a rate limit. *)
Definition upsert_broken : IndexWorld :=
  mkIndexWorld (λ _ _, Raise broken_pipe) (λ i, i) (Ok 0).

Import PdfReaderTool.

Definition build_fine : Builder := λ _ _, Ok tt.

(** Two threads call [get_or_create_retriever] for the same path. *)
Definition two_callers : System := (initial, [Checking "a.pdf"; Checking "a.pdf"]).

(** ISBNs that differ only by whitespace beyond ASCII: a no-break space
    (U+00A0) after the digits, and an ideographic space (U+3000) alone. *)
Definition nbsp : string := String (ascii_of_nat 194) (String (ascii_of_nat 160) "").
Definition ideographic_space : string :=
  String (ascii_of_nat 227) (String (ascii_of_nat 128) (String (ascii_of_nat 128) "")).
Definition isbn_plain : Document := book "111" "x".
Definition isbn_padded : Document := book ("111" +:+ nbsp) "y".
Definition isbn_blank : Document := book ideographic_space "z".


Import ReferenceOps.

(** The collection of page 3, whose query answers with the chunk b. *)
Definition store3 : Store := mkStore page3 (λ _ _ _, Ok [chunk_b]) (λ _, None) None.

Definition sort_raises (l : list Chunk) : result (list Chunk) :=
  Raise (Exn "TypeError" "'<' not supported between instances of 'int' and 'str'").

Definition rate_limit : exn := Exn "Exception" "429 Too Many Requests".

(** The first upsert of a batch meets the rate limit, the second goes
    through. *)
Definition upsert_recovers : IndexWorld :=
  mkIndexWorld (λ _ k, if (k =? 0)%nat then Raise rate_limit else Ok tt) (λ i, i) (Ok 1).

(** Every upsert meets the rate limit. *)
Definition upsert_limited : IndexWorld :=
  mkIndexWorld (λ _ _, Raise rate_limit) (λ i, i) (Ok 0).

(** The full-text search raises, Chroma answers with one book. *)
Definition lexical_down : World Z :=
  mkWorld Z (λ _ _, Raise (Exn "OperationalError" "connection lost"))
            (λ _ _, Ok [book "111" "Python co ban"])
            (λ pairs, Ok ((λ _, 0%Z) <$> pairs))
            (λ _, Ok []).

(** A run of the chain with every service up, and what it returns. *)
Definition python_run : M (list Document) :=
  retrieval_chain_invoke Z.ltb concat_fusion format_any all_up "python".
Definition python_docs : list Document :=
  match snd python_run with Ok docs => docs | Raise _ => [] end.


Definition simple_run : M (list BookTools.BookRecord) :=
  BookTools.search_books_simple Z.ltb concat_fusion format_any all_up "python".
Definition simple_records : list BookTools.BookRecord :=
  match snd simple_run with Ok records => records | Raise _ => [] end.

Import Ingestion.

(** A text of 1000 characters, and two text items of page 1: the first
    fills a chunk, the second starts the next. *)
Definition long_text : string := String.concat "" (replicate 1000 "a").
Definition two_items : list (Item unit) :=
  [mkItem TextItem long_text [(1%Z, None)]; mkItem TextItem " b " [(1%Z, Some tt)]].
Definition first_doc : Doc unit := mkDoc long_text "s.pdf" "s.pdf" 1%Z [] "text" "N/A".
Definition second_doc : Doc unit := mkDoc "b" "s.pdf" "s.pdf" 1%Z [tt] "text" "N/A".

End Scenario.

(* ===================================================================== *)
(** * Properties of the hybrid book search *)
(* ===================================================================== *)

Section BookSearchFacts.
Import BookSearch.
Context {Score : Type}.
Variable score_ltb : Score → Score → bool.
Variable weighted_reciprocal_rank : list (list Document) → list Document.
Variable format_4f : value → result string.
Variable W : World Score.

Lemma unique_loop_elem seen docs d :
  d ∈ unique_loop seen docs →
  isbn_key d ≠ "" ∧ (isbn_key d ∉ seen) ∧ d ∈ docs.
Proof.
  revert seen. induction docs as [|x docs IH]; intros seen; simpl.
  - intros H. inversion H.
  - destruct (negb (String.eqb (isbn_key x) "") && bool_decide (isbn_key x ∉ seen)) eqn:E.
    + apply andb_true_iff in E as [E1 E2].
      apply negb_true_iff in E1. apply String.eqb_neq in E1.
      apply bool_decide_eq_true in E2.
      intros [->|Hin]%elem_of_cons.
      * split_and!; [done|done|left].
      * apply IH in Hin as (Hne & Hns & Hd).
        split_and!; [done|set_solver|by right].
    + intros Hin. apply IH in Hin as (Hne & Hns & Hd).
      split_and!; [done|done|by right].
Qed.

Lemma unique_loop_NoDup seen docs : NoDup (isbn_key <$> unique_loop seen docs).
Proof.
  revert seen. induction docs as [|x docs IH]; intros seen; simpl.
  - constructor.
  - destruct (negb (String.eqb (isbn_key x) "") && bool_decide (isbn_key x ∉ seen)); [|apply IH].
    rewrite fmap_cons. constructor; [|apply IH].
    intros (d & Hk & Hd)%list_elem_of_fmap.
    apply unique_loop_elem in Hd as (_ & Hns & _).
    rewrite <- Hk in Hns. set_solver.
Qed.

Lemma unique_loop_first seen docs d :
  d ∈ unique_loop seen docs →
  ∃ before after, docs = before ++ d :: after ∧
                  ∀ d', d' ∈ before → isbn_key d' ≠ isbn_key d.
Proof.
  revert seen. induction docs as [|x docs IH]; intros seen; simpl.
  - intros H. inversion H.
  - destruct (negb (String.eqb (isbn_key x) "") && bool_decide (isbn_key x ∉ seen)) eqn:E.
    + intros [->|Hin]%elem_of_cons.
      * exists [], docs. split; [done|]. intros d' H. inversion H.
      * pose proof (unique_loop_elem _ _ _ Hin) as (_ & Hns & _).
        apply IH in Hin as (before & after & -> & Hb).
        exists (x :: before), after. split; [done|].
        intros d' [->|Hd']%elem_of_cons; [set_solver|by apply Hb].
    + intros Hin.
      pose proof (unique_loop_elem _ _ _ Hin) as (Hne & Hns & _).
      apply IH in Hin as (before & after & -> & Hb).
      exists (x :: before), after. split; [done|].
      intros d' [->|Hd']%elem_of_cons; [|by apply Hb].
      intros Heq. rewrite Heq in E.
      apply andb_false_iff in E as [E|E].
      * apply negb_false_iff in E. apply String.eqb_eq in E. done.
      * apply bool_decide_eq_false in E. done.
Qed.

Lemma unique_loop_covers seen docs d :
  d ∈ docs → isbn_key d ≠ "" → isbn_key d ∉ seen →
  ∃ d', d' ∈ unique_loop seen docs ∧ isbn_key d' = isbn_key d.
Proof.
  revert seen. induction docs as [|x docs IH]; intros seen Hd Hne Hns; simpl.
  - inversion Hd.
  - destruct (negb (String.eqb (isbn_key x) "") && bool_decide (isbn_key x ∉ seen)) eqn:E.
    + destruct (decide (isbn_key x = isbn_key d)) as [Heq|Hneq].
      * exists x. split; [left|done].
      * apply elem_of_cons in Hd as [->|Hd]; [done|].
        destruct (IH ({[isbn_key x]} ∪ seen) Hd Hne) as (d' & Hd' & Hk); [set_solver|].
        exists d'. split; [by right|done].
    + apply elem_of_cons in Hd as [->|Hd].
      * apply andb_false_iff in E as [E|E].
        -- apply negb_false_iff in E. apply String.eqb_eq in E. done.
        -- apply bool_decide_eq_false in E. done.
      * by apply IH.
Qed.

(** C3. Whatever the two ranked lists, the fused list that leaves
    [UniqueEnsembleRetriever.invoke] holds no two documents with the same
    ISBN key; a document that is kept is the first of the fused list with
    its key; and every non-empty key of the fused list is kept. *)
Theorem unique_ensemble_no_duplicate_isbn (lexical semantic : list Document) :
  let fused := weighted_reciprocal_rank [lexical; semantic] in
  let out := unique_docs fused in
  NoDup (isbn_key <$> out) ∧
  (∀ doc, doc ∈ out →
     ∃ before after, fused = before ++ doc :: after ∧
                     ∀ d, d ∈ before → isbn_key d ≠ isbn_key doc) ∧
  (∀ doc, doc ∈ fused → isbn_key doc ≠ "" →
     ∃ d, d ∈ out ∧ isbn_key d = isbn_key doc).
Proof.
  intros fused out. split_and!.
  - apply unique_loop_NoDup.
  - intros doc Hdoc. by apply unique_loop_first in Hdoc.
  - intros doc Hdoc Hne. apply unique_loop_covers; [done|done|set_solver].
Qed.

(** The key is the stripped ISBN, whatever the whitespace: a document
    whose ISBN is padded with a no-break space is a duplicate, and one
    whose ISBN is an ideographic space alone is dropped. *)
Example unique_docs_unicode_whitespace :
  isbn_key Scenario.isbn_padded = "111" ∧
  isbn_key Scenario.isbn_blank = "" ∧
  unique_docs [Scenario.isbn_plain; Scenario.isbn_padded; Scenario.isbn_blank]
  = [Scenario.isbn_plain].
Proof. split_and!; by vm_compute. Qed.

(** C9. An empty candidate list is answered with an empty list, and no
    call leaves the process: the scoring model is not invoked. *)
Theorem compress_documents_empty (top_n : nat) (query : string) :
  compress_documents score_ltb format_4f W top_n [] query = ([], Ok []).
Proof. reflexivity. Qed.

Lemma base_compress_documents_trace top_n documents query :
  fst (base_compress_documents score_ltb W top_n documents query)
  = [ModelScore ((λ doc, (query, page_content doc)) <$> documents)].
Proof.
  unfold base_compress_documents, call, bind, ret.
  by destruct (model_score W _).
Qed.

Lemma base_compress_documents_length top_n documents query out :
  snd (base_compress_documents score_ltb W top_n documents query) = Ok out →
  length out ≤ top_n.
Proof.
  unfold base_compress_documents, call, bind, ret.
  destruct (model_score W _); simpl; [|done].
  intros [= <-]. rewrite length_fmap, length_take. lia.
Qed.

Lemma compress_documents_trace top_n documents query :
  fst (compress_documents score_ltb format_4f W top_n documents query)
  = match documents with
    | [] => []
    | _ => [ModelScore ((λ doc, (query, page_content doc)) <$> documents)]
    end.
Proof.
  destruct documents as [|d documents]; [done|].
  unfold compress_documents.
  pose proof (base_compress_documents_trace top_n (d :: documents) query) as Ht.
  destruct (base_compress_documents _ _ _ _ _) as [t [compressed|e]]; simpl in *.
  - subst t. unfold bind, ret. by destruct (log_scores _ _).
  - done.
Qed.

(** C7, as the code has it. The reranker hands every candidate it receives
    to the scoring model, however many there are: the number of pairs scored
    is the length of the list.  Only the answer is bounded, by [top_n]. *)
Theorem reranker_scores_every_candidate (top_n : nat) (documents : list Document) (query : string) :
  scored_candidates (fst (compress_documents score_ltb format_4f W top_n documents query))
  = length documents ∧
  match snd (compress_documents score_ltb format_4f W top_n documents query) with
  | Ok compressed => length compressed ≤ top_n
  | Raise _ => True
  end.
Proof.
  split.
  - rewrite compress_documents_trace.
    destruct documents as [|d documents]; [done|].
    unfold scored_candidates. simpl. rewrite length_fmap. lia.
  - destruct documents as [|d documents]; [simpl; lia|].
    unfold compress_documents.
    pose proof (base_compress_documents_length top_n (d :: documents) query) as Hl.
    destruct (base_compress_documents _ _ _ _ _) as [t [compressed|e]]; simpl in *; [|done].
    unfold bind, ret. destruct (log_scores _ _); simpl; [|done].
    by apply Hl.
Qed.

(** C2, as the code has it. When the scoring call raises on a non-empty
    candidate list, the reranker makes that one call and the exception
    leaves [compress_documents]: no candidate is returned. *)
Theorem scoring_failure_propagates (top_n : nat) (documents : list Document) (query : string) (e : exn) :
  documents ≠ [] →
  model_score W ((λ doc, (query, page_content doc)) <$> documents) = Raise e →
  compress_documents score_ltb format_4f W top_n documents query
  = ([ModelScore ((λ doc, (query, page_content doc)) <$> documents)], Raise e).
Proof.
  intros Hne Hscore.
  destruct documents as [|d documents]; [done|].
  unfold compress_documents, base_compress_documents, call, bind.
  by rewrite Hscore.
Qed.

Lemma chroma_raises k query e :
  similarity_search W query k = Raise e →
  snd (chroma_get_relevant_documents W k query) = Raise e.
Proof.
  intros H. unfold chroma_get_relevant_documents, call, bind. by rewrite H.
Qed.

Lemma sql_never_raises top_k query :
  ∃ t docs, sql_get_relevant_documents W top_k query = (t, Ok docs).
Proof.
  unfold sql_get_relevant_documents, try_except, call, bind, ret.
  destruct (sql_fulltext W query top_k); simpl; eauto.
Qed.

(** What leaves [UniqueEnsembleRetriever.invoke] is the filtered fusion of
    two lists. *)
Lemma unique_ensemble_invoke_result top_k query t out :
  unique_ensemble_invoke weighted_reciprocal_rank W top_k query = (t, Ok out) →
  ∃ lexical semantic, out = unique_docs (weighted_reciprocal_rank [lexical; semantic]).
Proof.
  unfold unique_ensemble_invoke, ensemble_invoke.
  destruct (sql_get_relevant_documents W top_k query) as [t1 [lexical|e1]]; [|done].
  destruct (chroma_get_relevant_documents W top_k query) as [t2 [semantic|e2]]; [|done].
  simpl. intros [= _ <-]. eauto.
Qed.

(** An exception of the semantic source leaves the whole chain, whatever
    the full-text search found. *)
Lemma retrieval_chain_semantic_raises query e :
  similarity_search W query 20 = Raise e →
  snd (retrieval_chain_invoke score_ltb weighted_reciprocal_rank format_4f W query) = Raise e.
Proof.
  intros H.
  unfold retrieval_chain_invoke, unique_ensemble_invoke, ensemble_invoke.
  destruct (sql_never_raises 20 query) as (t & docs & ->).
  pose proof (chroma_raises 20 query e H) as Hc.
  destruct (chroma_get_relevant_documents W 20 query) as [t' r]. simpl in Hc. subst r.
  reflexivity.
Qed.

(** An exception of the full-text search is absorbed: the chain goes on
    with the semantic results alone. *)
Lemma sql_failure_absorbed top_k query e :
  sql_fulltext W query top_k = Raise e →
  sql_get_relevant_documents W top_k query = ([SqlFullText query top_k], Ok []).
Proof.
  intros H. unfold sql_get_relevant_documents, try_except, call, bind, ret.
  by rewrite H.
Qed.

Section Tool.
Variable json_loads : string → result (list (string * value)).

(** A falsy normalised query is answered with the fixed message, before
    any call leaves the process. *)
Lemma book_search_tool_falsy query v :
  normalize_query json_loads query = Ok v → truthy v = false →
  book_search_tool score_ltb weighted_reciprocal_rank format_4f W json_loads query
  = ([], Ok MSG_NO_QUERY).
Proof.
  intros Hn Hv. unfold book_search_tool, bind. rewrite Hn. simpl. by rewrite Hv.
Qed.

(** A string is never refused for a missing query: when the JSON object
    has no item, the text itself is searched. *)
Lemma normalize_query_str_ok s : ∃ v, normalize_query json_loads (InStr s) = Ok v.
Proof.
  simpl. destruct (startswith _ _); [|eauto].
  destruct (json_loads s) as [data|]; [|eauto].
  destruct (query_or_first_value data); eauto.
Qed.

(** C10 at the empty dict: [list(query.values())[0]] raises, and the
    exception leaves the tool before the emptiness test. *)
Theorem book_search_tool_empty_dict :
  book_search_tool score_ltb weighted_reciprocal_rank format_4f W json_loads (InDict [])
  = ([], Raise (Exn "IndexError" "list index out of range")).
Proof. reflexivity. Qed.

End Tool.

End BookSearchFacts.

(** ** The pipeline on concrete services *)

Import BookSearch Scenario.

(** C1 at a concrete input. The semantic source raises, the full-text
    search has found three rows: the exception of the semantic source
    leaves the retrieval chain and the tool, and no result is returned. *)
Theorem semantic_failure_leaves_pipeline :
  sql_fulltext semantic_down "python" 20 = Ok three_rows ∧
  similarity_search semantic_down "python" 20 = Raise chroma_down ∧
  retrieval_chain_invoke Z.ltb concat_fusion format_any semantic_down "python"
  = ([SqlFullText "python" 20; SimilaritySearch "python" 20], Raise chroma_down) ∧
  book_search_tool Z.ltb concat_fusion format_any semantic_down no_json (InStr "python")
  = ([BuildRetrievalChain; SqlFullText "python" 20; SimilaritySearch "python" 20],
     Raise chroma_down).
Proof. split_and!; reflexivity. Qed.

(** With every service up, the tool answers with the three books. *)
Example book_search_tool_all_up :
  fst (book_search_tool Z.ltb concat_fusion format_any all_up no_json (InStr " python "))
  = [BuildRetrievalChain; SqlFullText "python" 20; SimilaritySearch "python" 20;
     ModelScore [("python", "Python co ban" +:+ NL +:+ "...");
                 ("python", "Lap trinh Python" +:+ NL +:+ "...");
                 ("python", "Hoc may" +:+ NL +:+ "...")];
     SqlBookDetails [VStr "111"; VStr "222"; VStr "333"]] ∧
  ∃ answer, snd (book_search_tool Z.ltb concat_fusion format_any all_up no_json (InStr " python "))
            = Ok answer ∧
            startswith answer "Tìm thấy 3 sách phù hợp:" = true.
Proof. split; [by vm_compute|]. eexists. split; [by vm_compute|by vm_compute]. Qed.

(** A string of blanks is truthy: it passes the emptiness test, is
    stripped afterwards, and the chain is invoked with the empty query. *)
Example book_search_tool_blank_string :
  fst (book_search_tool Z.ltb concat_fusion format_any all_up no_json (InStr "   "))
  = [BuildRetrievalChain; SqlFullText "" 20; SimilaritySearch "" 20;
     ModelScore [("", "Python co ban" +:+ NL +:+ "...");
                 ("", "Lap trinh Python" +:+ NL +:+ "...");
                 ("", "Hoc may" +:+ NL +:+ "...")];
     SqlBookDetails [VStr "111"; VStr "222"; VStr "333"]].
Proof. by vm_compute. Qed.

(** The text of an empty JSON object: the [IndexError] is swallowed and the
    text itself is searched. *)
Example book_search_tool_empty_json_object :
  normalize_query json_braces (InStr "{}") = Ok (VStr "{}") ∧
  take 2 (fst (book_search_tool Z.ltb concat_fusion format_any all_up json_braces (InStr "{}")))
  = [BuildRetrievalChain; SqlFullText "{}" 20].
Proof. split; by vm_compute. Qed.

(** C2 fails on the code: with two candidates and a scoring call that
    raises, the reranker does not return the first candidates of its input,
    it raises. *)
Lemma scoring_failure_no_fallback :
  snd (compress_documents Z.ltb format_any scoring_down 5 two_books "python")
  = Raise scorer_down ∧
  snd (compress_documents Z.ltb format_any scoring_down 5 two_books "python")
  ≠ Ok (take 5 two_books).
Proof. split; [reflexivity | discriminate]. Qed.

Lemma scoring_failure_propagates_witness :
  two_books ≠ [] ∧
  model_score scoring_down ((λ doc, ("python", page_content doc)) <$> two_books)
  = Raise scorer_down ∧
  compress_documents Z.ltb format_any scoring_down 5 two_books "python"
  = ([ModelScore ((λ doc, ("python", page_content doc)) <$> two_books)], Raise scorer_down).
Proof.
  split; [discriminate|]. split; [reflexivity|].
  apply (scoring_failure_propagates Z.ltb format_any scoring_down 5 two_books "python" scorer_down).
  - discriminate.
  - reflexivity.
Defined.

(** C7 fails on the code: given twenty-one candidates, the reranker has
    the model score twenty-one pairs, more than twenty. *)
Lemma reranker_scores_twenty_one :
  length many_books = 21 ∧
  scored_candidates (fst (compress_documents Z.ltb format_any all_up 5 many_books "python")) = 21 ∧
  ¬ scored_candidates (fst (compress_documents Z.ltb format_any all_up 5 many_books "python")) ≤ 20.
Proof.
  assert (H : scored_candidates
                (fst (compress_documents Z.ltb format_any all_up 5 many_books "python")) = 21)
    by (vm_compute; reflexivity).
  split_and!; [reflexivity | exact H | rewrite H; lia].
Qed.

(* ===================================================================== *)
(** * The stable sort *)
(* ===================================================================== *)

Section StableSortFacts.
Context {A K : Type} `{EqDecision K}.
Variable key : A → K.
Variable kleb : K → K → bool.
Hypothesis kleb_refl : ∀ k, kleb k k = true.
Hypothesis kleb_total : ∀ k1 k2, kleb k1 k2 = true ∨ kleb k2 k1 = true.

Local Abbreviation leb := (λ a b : A, kleb (key a) (key b)).

Lemma insert_sorted_Permutation x l : insert_sorted leb x l ≡ₚ x :: l.
Proof.
  induction l as [|y l IH]; simpl; [done|].
  destruct (leb x y); [done|].
  rewrite IH. apply Permutation_swap.
Qed.

Lemma stable_sort_Permutation l : stable_sort leb l ≡ₚ l.
Proof.
  induction l as [|x l IH]; simpl; [done|].
  by rewrite insert_sorted_Permutation, IH.
Qed.

Lemma insert_sorted_HdRel a x l :
  leb a x = true → HdRel (λ u v, leb u v = true) a l →
  HdRel (λ u v, leb u v = true) a (insert_sorted leb x l).
Proof.
  intros Hax Hal. destruct l as [|y l]; simpl.
  - by constructor.
  - destruct (leb x y); constructor; [done|]. by inversion Hal.
Qed.

Lemma insert_sorted_Sorted x l :
  Sorted (λ u v, leb u v = true) l →
  Sorted (λ u v, leb u v = true) (insert_sorted leb x l).
Proof.
  induction 1 as [|y l Hs IH Hhd]; simpl.
  - by repeat constructor.
  - destruct (leb x y) eqn:E.
    + constructor; [by constructor|by constructor].
    + constructor; [done|].
      apply insert_sorted_HdRel; [|done].
      destruct (kleb_total (key x) (key y)); congruence.
Qed.

Lemma stable_sort_Sorted l : Sorted (λ u v, leb u v = true) (stable_sort leb l).
Proof.
  induction l as [|x l IH]; simpl; [constructor|by apply insert_sorted_Sorted].
Qed.

Lemma insert_sorted_stable k x l :
  filter (λ a, key a = k) (insert_sorted leb x l) = filter (λ a, key a = k) (x :: l).
Proof.
  induction l as [|y l IH]; simpl; [done|].
  destruct (leb x y) eqn:E; [done|].
  rewrite filter_cons, IH, !filter_cons.
  destruct (decide (key y = k)) as [Hy|Hy], (decide (key x = k)) as [Hx|Hx]; try done.
  rewrite Hx, Hy, kleb_refl in E. done.
Qed.

(** Elements with the same key leave the sort in the order they entered
    it. *)
Lemma stable_sort_stable k l :
  filter (λ a, key a = k) (stable_sort leb l) = filter (λ a, key a = k) l.
Proof.
  induction l as [|x l IH]; simpl; [done|].
  by rewrite insert_sorted_stable, !filter_cons, IH.
Qed.

End StableSortFacts.

(* ===================================================================== *)
(** * Properties of the same-page expansion *)
(* ===================================================================== *)

Section ExpansionFacts.
Import ReferenceSearch.
Variable c : Collection.

Lemma key_leb_refl k : key_leb k k = true.
Proof.
  unfold key_leb. rewrite Z.eqb_refl.
  assert (String.leb k.2 k.2 = true) as ->.
  { destruct (String.leb_total k.2 k.2); done. }
  by rewrite orb_true_r.
Qed.

Lemma key_leb_total k1 k2 : key_leb k1 k2 = true ∨ key_leb k2 k1 = true.
Proof.
  unfold key_leb.
  destruct (Z.ltb_spec k1.1 k2.1); [by left|].
  destruct (Z.ltb_spec k2.1 k1.1); [by right|].
  assert (k1.1 = k2.1) as -> by lia. rewrite Z.eqb_refl. simpl.
  apply String.leb_total.
Qed.

Lemma expand_same_page_Permutation chunks :
  expand_same_page c chunks ≡ₚ fetched_docs c chunks.
Proof. apply (stable_sort_Permutation sort_key key_leb). Qed.

Lemma elem_of_page_set q chunks :
  q ∈ page_set chunks ↔ ∃ d, d ∈ chunks ∧ default 1%Z (chunk_page d) = q.
Proof.
  unfold page_set. rewrite elem_of_list_to_set, list_elem_of_fmap. naive_solver.
Qed.


Lemma elem_of_pages_to_fetch q chunks : q ∈ pages_to_fetch chunks ↔ q ∈ page_set chunks.
Proof. unfold pages_to_fetch. by rewrite merge_sort_Permutation, elem_of_elements. Qed.



Lemma page_results_page page d : d ∈ page_results c page → chunk_page d = Some page.
Proof.
  unfold page_results, collection_get. destruct (get_error c page).
  - intros H. inversion H.
  - by intros [? _]%list_elem_of_filter.
Qed.

Lemma add_unseen_elem seen rs d : d ∈ (add_unseen seen rs).2 → d ∈ rs.
Proof.
  revert seen. induction rs as [|r rs IH]; intros seen; simpl; [done|].
  case_bool_decide as Hseen.
  - intros Hd. right. by eapply IH.
  - specialize (IH ({[chunk_content r]} ∪ seen)).
    destruct (add_unseen _ rs) as [seen' added]. simpl in *.
    intros [->|Hd]%elem_of_cons; [left|right; by apply IH].
Qed.


Lemma expand_loop_cons seen page pages :
  expand_loop c seen (page :: pages)
  = (add_unseen seen (page_results c page)).2
    ++ expand_loop c (add_unseen seen (page_results c page)).1 pages.
Proof. simpl. by destruct (add_unseen _ _). Qed.








(** An anchor that the store holds, on a page that can be read, is not
    lost: its content is in the expansion. *)
Lemma expand_loop_keeps seen pages a p :
  a ∈ page_results c p → p ∈ pages → chunk_content a ∉ seen →
  chunk_content a ∈ chunk_content <$> expand_loop c seen pages.
Proof.
  intros Ha. revert seen. induction pages as [|page pages IH]; intros seen Hp Hns.
  - inversion Hp.
  - rewrite expand_loop_cons, fmap_app, elem_of_app.
    destruct (decide (chunk_content a ∈
                      chunk_content <$> (add_unseen seen (page_results c page)).2))
      as [Hin|Hnin]; [by left|right].
    assert (Hmono : ∀ rs s x, x ∈ (add_unseen s rs).1 →
                              x ∈ s ∨ x ∈ chunk_content <$> (add_unseen s rs).2).
    { clear. induction rs as [|r rs IHrs]; intros s x; simpl; [by left|].
      case_bool_decide as Hr; [apply IHrs|].
      specialize (IHrs ({[chunk_content r]} ∪ s) x).
      destruct (add_unseen _ rs) as [s' added]. simpl in *.
      intros Hx. destruct (IHrs Hx) as [Hx'|Hx']; [|right; by right].
      apply elem_of_union in Hx' as [->%elem_of_singleton|Hx']; [right; left|by left]. }
    assert (Hcov : ∀ rs s x, x ∈ rs → chunk_content x ∈ s ∨
                             chunk_content x ∈ chunk_content <$> (add_unseen s rs).2).
    { clear. induction rs as [|r rs IHrs]; intros s x Hx; simpl; [inversion Hx|].
      apply elem_of_cons in Hx as [->|Hx].
      - case_bool_decide as Hr; [by left|].
        destruct (add_unseen _ rs) as [s' added]. simpl. right. left.
      - case_bool_decide as Hr; [by apply IHrs|].
        specialize (IHrs ({[chunk_content r]} ∪ s) x Hx).
        destruct (add_unseen _ rs) as [s' added]. simpl in *.
        destruct IHrs as [Hx'|Hx']; [|right; by right].
        apply elem_of_union in Hx' as [Hx'%elem_of_singleton|Hx']; [|by left].
        right. rewrite Hx'. left. }
    apply elem_of_cons in Hp as [->|Hp].
    + destruct (Hcov _ seen a Ha); done.
    + apply IH; [done|]. intros Hs. apply Hmono in Hs as [?|?]; done.
Qed.

Lemma expand_same_page_keeps chunks a p :
  a ∈ chunks → chunk_page a = Some p → a ∈ records c → get_error c p = None →
  chunk_content a ∈ chunk_content <$> expand_same_page c chunks.
Proof.
  intros Ha Hp Hrec Herr.
  rewrite expand_same_page_Permutation.
  apply (expand_loop_keeps _ _ a p).
  - unfold page_results, collection_get. rewrite Herr.
    by apply list_elem_of_filter.
  - apply elem_of_pages_to_fetch, elem_of_page_set. exists a. by rewrite Hp.
  - set_solver.
Qed.


Lemma Sorted_weaken {A} (R1 R2 : A → A → Prop) (l : list A) :
  (∀ x y, R1 x y → R2 x y) → Sorted R1 l → Sorted R2 l.
Proof.
  intros HR. induction 1 as [|x l Hs IH Hhd]; constructor; [done|].
  destruct Hhd; constructor; auto.
Qed.

Lemma key_leb_page k1 k2 : key_leb k1 k2 = true → (k1.1 ≤ k2.1)%Z.
Proof.
  unfold key_leb. intros [H|[H _]%andb_true_iff]%orb_true_iff; lia.
Qed.

(** C5, as the code has it. The expansion is sorted by the key (page,
    first fifty characters of the content): pages ascend, and chunks with
    the same key, and only those, keep the order in which they were
    fetched. *)
Theorem expand_same_page_sorted (chunks : list Chunk) :
  Sorted (λ d1 d2, key_leb (sort_key d1) (sort_key d2) = true) (expand_same_page c chunks) ∧
  Sorted (λ d1 d2, (default 0 (chunk_page d1) ≤ default 0 (chunk_page d2))%Z)
         (expand_same_page c chunks) ∧
  ∀ k, filter (λ d, sort_key d = k) (expand_same_page c chunks)
       = filter (λ d, sort_key d = k) (fetched_docs c chunks).
Proof.
  assert (Hs : Sorted (λ d1 d2, key_leb (sort_key d1) (sort_key d2) = true)
                      (expand_same_page c chunks)).
  { apply (stable_sort_Sorted sort_key key_leb), key_leb_total. }
  split_and!.
  - exact Hs.
  - eapply Sorted_weaken; [|exact Hs]. intros x y Hxy. by apply key_leb_page in Hxy.
  - intros k. apply (stable_sort_stable sort_key key_leb), key_leb_refl.
Qed.

End ExpansionFacts.

Import ReferenceSearch.

(** C5 fails on the code: page 3 is stored as b, a; the expansion of the
    anchor b returns a before b. *)
Lemma same_page_order_not_kept :
  page_results page3 3 = [chunk_b; chunk_a] ∧
  fetched_docs page3 [chunk_b] = [chunk_b; chunk_a] ∧
  expand_same_page page3 [chunk_b] = [chunk_a; chunk_b] ∧
  filter (λ d, chunk_page d = Some 3%Z) (expand_same_page page3 [chunk_b])
  ≠ page_results page3 3.
Proof.
  assert (H : expand_same_page page3 [chunk_b] = [chunk_a; chunk_b])
    by (vm_compute; reflexivity).
  split_and!; [by vm_compute|by vm_compute|exact H|].
  rewrite H. vm_compute. discriminate.
Qed.



(* ===================================================================== *)
(** * Properties of the bulk indexing *)
(* ===================================================================== *)

Section IndexingFacts.
Variable w : IndexWorld.

Lemma elem_of_as_completed n i : i ∈ as_completed w n ↔ i < n.
Proof.
  unfold as_completed.
  rewrite (stable_sort_Permutation (finish_time w) Nat.leb), elem_of_seq. lia.
Qed.

Lemma list_filter_nil {A} (f : A → bool) (l : list A) :
  List.filter f l = [] ↔ ∀ x, x ∈ l → f x = false.
Proof.
  induction l as [|y l IH]; simpl.
  - split; [intros _ x Hx; inversion Hx|done].
  - destruct (f y) eqn:E.
    + split; [done|]. intros H. specialize (H y). rewrite E in H.
      discriminate H. left.
    + rewrite IH. split.
      * intros H x [->|Hx]%elem_of_cons; auto.
      * intros H x Hx. apply H. by right.
Qed.

(** The batches are the list cut in pieces: the fuel of [make_batches]
    is enough. *)
Lemma split_batches_concat {A} (fuel batch_size : nat) (documents : list A) :
  0 < batch_size → length documents ≤ fuel →
  concat (split_batches fuel batch_size documents) = documents.
Proof.
  intros Hbs. revert documents.
  induction fuel as [|fuel IH]; intros [|x documents] Hlen; simpl in *; try done; [lia|].
  destruct batch_size as [|bs]; [lia|]. simpl. f_equal.
  rewrite IH; [apply take_drop|]. rewrite length_drop. lia.
Qed.

Lemma make_batches_concat {A} (batch_size : nat) (documents : list A) :
  0 < batch_size → concat (make_batches batch_size documents) = documents.
Proof. intros Hbs. by apply split_batches_concat. Qed.

(** Nothing is recorded as failed exactly when ["OK"] occurs in the
    result string of every batch. *)
Lemma failed_results_nil n :
  failed_results w n = [] ↔ ∀ i, i < n → contains "OK" (process_batch w i) = true.
Proof.
  unfold failed_results. rewrite list_filter_nil. split.
  - intros H i Hi. apply negb_false_iff, H, list_elem_of_fmap.
    exists i. split; [done|]. by apply elem_of_as_completed.
  - intros H x (i & -> & Hi)%list_elem_of_fmap.
    apply negb_false_iff, H. by apply elem_of_as_completed.
Qed.

(** [index_documents] returns normally exactly when the batch size is
    positive, ["OK"] occurs in every result string, and the final count
    answers. *)
Lemma index_documents_ok_iff {A} (documents : list A) (batch_size : nat) :
  index_documents w documents batch_size = Ok tt ↔
  batch_size ≠ 0 ∧
  (∀ i, i < length (make_batches batch_size documents) →
        contains "OK" (process_batch w i) = true) ∧
  is_ok (collection_count w) = true.
Proof.
  unfold index_documents.
  destruct (Nat.eqb_spec batch_size 0) as [->|Hbs]; [naive_solver|].
  rewrite <- failed_results_nil.
  destruct (failed_results w _) as [|r failed]; [|naive_solver].
  destruct (collection_count w); naive_solver.
Qed.

End IndexingFacts.

(** C6 at a concrete input. One chunk, one batch; the upsert raises an
    error that is not a rate limit and whose text holds the letters OK.  The
    batch has failed, and [index_documents] returns normally. *)
Theorem index_documents_misses_failed_batch :
  upsert upsert_broken 0 0 = Raise broken_pipe ∧
  process_batch upsert_broken 0 = "❌ Batch 1 ERROR: BROKEN pipe" ∧
  contains "OK" (process_batch upsert_broken 0) = true ∧
  index_documents upsert_broken ["chunk"] 100 = Ok tt.
Proof. split_and!; by vm_compute. Qed.

(* ===================================================================== *)
(** * Properties of the retriever cache *)
(* ===================================================================== *)

Section CacheFacts.
Import PdfReaderTool.
Variable build : Builder.

Lemma good_builds_of_snoc p c1 c2 bs q b :
  good_builds_of p (mkState c1 (bs ++ [(q, b)]))
  = good_builds_of p (mkState c2 bs) + (if String.eqb q p && b then 1 else 0).
Proof.
  unfold good_builds_of. simpl. rewrite List.filter_app, length_app. simpl.
  by destruct (String.eqb q p && b).
Qed.

Lemma cache_counts_initial : cache_counts initial.
Proof. intros p. done. Qed.

Lemma cache_counts_step q st :
  cache_counts st → cache_counts (get_or_create_retriever build q st).1.
Proof.
  intros Hinv p. unfold get_or_create_retriever.
  destruct (cache st !! q) as [r|] eqn:Hq; [apply Hinv|].
  destruct (build q _); simpl.
  - rewrite (good_builds_of_snoc p _ (cache st)), andb_true_r.
    destruct (String.eqb_spec q p) as [->|Hne].
    + rewrite lookup_insert_eq. specialize (Hinv p). rewrite Hq in Hinv.
      destruct st. simpl in *. lia.
    + rewrite lookup_insert_ne by done. specialize (Hinv p).
      destruct st. simpl in *. lia.
  - rewrite (good_builds_of_snoc p _ (cache st)), andb_false_r.
    specialize (Hinv p). destruct st. simpl in *. lia.
Qed.

Lemma cache_counts_run paths st : cache_counts st → cache_counts (run_calls build paths st).
Proof.
  revert st. induction paths as [|q paths IH]; intros st Hinv; [done|].
  simpl. by apply IH, cache_counts_step.
Qed.

(** A thread that runs alone does what the function does. *)
Lemma thread_alone p st :
  let '(s1, t1) := thread_step build (Checking p) st in
  let '(s2, t2) := thread_step build t1 s1 in
  let '(s3, t3) := thread_step build t2 s2 in
  (s3, t3) = ((get_or_create_retriever build p st).1,
              Returned (get_or_create_retriever build p st).2).
Proof.
  unfold get_or_create_retriever. simpl.
  destruct (cache st !! p) as [r|] eqn:Hp; simpl; [done|].
  destruct (build p _); simpl; done.
Qed.

(** C8, as the code has it. When the calls are made one after the other,
    at most one build per path goes through; and once a retriever is in
    the cache for a path, a call returns it as it is and leaves the cache
    and the record of builds untouched. *)
Theorem sequential_calls_build_once (paths : list string) (p : string) :
  good_builds_of p (run_calls build paths initial) ≤ 1 ∧
  ∀ st r, cache st !! p = Some r → get_or_create_retriever build p st = (st, Ok r).
Proof.
  split.
  - rewrite (cache_counts_run paths initial cache_counts_initial p).
    destruct (cache _ !! p); lia.
  - intros st r Hr. unfold get_or_create_retriever. by rewrite Hr.
Qed.

End CacheFacts.

Import PdfReaderTool.

Lemma sequential_calls_build_once_witness :
  good_builds_of "a.pdf" (run_calls build_fine ["a.pdf"; "b.pdf"; "a.pdf"] initial) ≤ 1 ∧
  (cache (run_calls build_fine ["a.pdf"] initial) !! "a.pdf" = Some (mkRetriever "a.pdf" 0) →
   get_or_create_retriever build_fine "a.pdf" (run_calls build_fine ["a.pdf"] initial)
   = (run_calls build_fine ["a.pdf"] initial, Ok (mkRetriever "a.pdf" 0))).
Proof.
  destruct (sequential_calls_build_once build_fine ["a.pdf"; "b.pdf"; "a.pdf"] "a.pdf")
    as [Hle Hhit].
  split; [exact Hle|]. intros Hc. by apply Hhit.
Defined.

(** C8 fails on the code: two threads that both test the cache before
    either has stored its retriever each build the index of the same path,
    and each returns a retriever of its own. *)
Lemma concurrent_first_access_builds_twice :
  builds_of "a.pdf" (run_schedule build_fine [0; 1; 0; 1; 0; 1] two_callers).1 = 2 ∧
  good_builds_of "a.pdf" (run_schedule build_fine [0; 1; 0; 1; 0; 1] two_callers).1 = 2 ∧
  (run_schedule build_fine [0; 1; 0; 1; 0; 1] two_callers).2
  = [Returned (Ok (mkRetriever "a.pdf" 0)); Returned (Ok (mkRetriever "a.pdf" 1))] ∧
  ¬ builds_of "a.pdf" (run_schedule build_fine [0; 1; 0; 1; 0; 1] two_callers).1 ≤ 1.
Proof.
  assert (H : builds_of "a.pdf"
                (run_schedule build_fine [0; 1; 0; 1; 0; 1] two_callers).1 = 2)
    by (vm_compute; reflexivity).
  split_and!; [exact H|by vm_compute|by vm_compute|rewrite H; lia].
Qed.

(* ===================================================================== *)
(** * Further properties of the same-page expansion *)
(* ===================================================================== *)

Section ExpansionContents.
Import ReferenceSearch.
Variable c : Collection.

Lemma add_unseen_seen seen rs x :
  x ∈ (add_unseen seen rs).1 ↔ x ∈ seen ∨ x ∈ chunk_content <$> (add_unseen seen rs).2.
Proof.
  revert seen. induction rs as [|r rs IH]; intros seen; simpl.
  - split; [by left|]. intros [?|Hx]; [done|inversion Hx].
  - case_bool_decide as Hr; [apply IH|].
    specialize (IH ({[chunk_content r]} ∪ seen)).
    destruct (add_unseen _ rs) as [seen' added]. simpl in *.
    rewrite IH, elem_of_union, elem_of_singleton, elem_of_cons. tauto.
Qed.

Lemma add_unseen_fresh seen rs d :
  d ∈ (add_unseen seen rs).2 → chunk_content d ∉ seen.
Proof.
  revert seen. induction rs as [|r rs IH]; intros seen; simpl.
  - intros Hd. inversion Hd.
  - case_bool_decide as Hr; [apply IH|].
    specialize (IH ({[chunk_content r]} ∪ seen)).
    destruct (add_unseen _ rs) as [seen' added]. simpl in *.
    intros [->|Hd]%elem_of_cons; [done|].
    apply IH in Hd. set_solver.
Qed.

Lemma add_unseen_NoDup seen rs : NoDup (chunk_content <$> (add_unseen seen rs).2).
Proof.
  revert seen. induction rs as [|r rs IH]; intros seen; simpl.
  - constructor.
  - case_bool_decide as Hr; [apply IH|].
    pose proof (add_unseen_fresh ({[chunk_content r]} ∪ seen) rs) as Hfresh.
    specialize (IH ({[chunk_content r]} ∪ seen)).
    destruct (add_unseen _ rs) as [seen' added]. simpl in *.
    constructor; [|done].
    intros (d & Hc & Hd)%list_elem_of_fmap.
    apply Hfresh in Hd. rewrite <- Hc in Hd. set_solver.
Qed.

Lemma expand_loop_fresh seen pages d :
  d ∈ expand_loop c seen pages → chunk_content d ∉ seen.
Proof.
  revert seen. induction pages as [|page pages IH]; intros seen.
  - intros Hd. inversion Hd.
  - rewrite expand_loop_cons. intros [Hd|Hd]%elem_of_app.
    + by eapply add_unseen_fresh.
    + apply IH in Hd. intros Hs. apply Hd, add_unseen_seen. by left.
Qed.

Lemma expand_loop_NoDup seen pages : NoDup (chunk_content <$> expand_loop c seen pages).
Proof.
  revert seen. induction pages as [|page pages IH]; intros seen.
  - constructor.
  - rewrite expand_loop_cons, fmap_app. apply NoDup_app. split_and!.
    + apply add_unseen_NoDup.
    + intros x Hx (d & -> & Hd)%list_elem_of_fmap.
      apply expand_loop_fresh in Hd. apply Hd, add_unseen_seen. by right.
    + apply IH.
Qed.

(** X1. No two chunks of an expansion have the same content. *)
Theorem expand_same_page_unique_contents (chunks : list Chunk) :
  NoDup (chunk_content <$> expand_same_page c chunks).
Proof.
  rewrite (expand_same_page_Permutation c chunks). apply expand_loop_NoDup.
Qed.

Lemma page_results_stored page d :
  d ∈ page_results c page → d ∈ records c ∧ get_error c page = None.
Proof.
  unfold page_results, collection_get. destruct (get_error c page).
  - intros Hd. inversion Hd.
  - by intros [_ ?]%list_elem_of_filter.
Qed.

Lemma expand_loop_stored seen pages d :
  d ∈ expand_loop c seen pages →
  d ∈ records c ∧ ∃ p, p ∈ pages ∧ chunk_page d = Some p ∧ get_error c p = None.
Proof.
  revert seen. induction pages as [|page pages IH]; intros seen.
  - intros Hd. inversion Hd.
  - rewrite expand_loop_cons. intros [Hd|Hd]%elem_of_app.
    + apply add_unseen_elem in Hd.
      pose proof (page_results_page c _ _ Hd) as Hp.
      apply page_results_stored in Hd as [Hrec Herr].
      split; [done|]. exists page. split_and!; [left|done|done].
    + apply IH in Hd as (Hrec & p & Hp & Hd & Herr).
      split; [done|]. exists p. split_and!; [by right|done|done].
Qed.

(** X2. An expansion holds nothing but records of the collection, each on
    a page that an anchor names and that could be read. *)
Theorem expand_same_page_stored (chunks : list Chunk) (d : Chunk) :
  d ∈ expand_same_page c chunks →
  d ∈ records c ∧
  ∃ p, chunk_page d = Some p ∧ get_error c p = None ∧
       ∃ a, a ∈ chunks ∧ default 1%Z (chunk_page a) = p.
Proof.
  rewrite (expand_same_page_Permutation c chunks).
  intros (Hrec & p & Hp & Hd & Herr)%expand_loop_stored.
  split; [done|]. exists p. split_and!; [done|done|].
  by apply elem_of_pages_to_fetch, elem_of_page_set in Hp.
Qed.

(** X3. Every record on the page of an anchor, when that page can be read,
    has its content in the expansion: the whole page is taken, not the
    anchors alone. *)
Theorem expand_same_page_whole_page (chunks : list Chunk) (a r : Chunk) (p : Z) :
  a ∈ chunks → default 1%Z (chunk_page a) = p →
  r ∈ records c → chunk_page r = Some p → get_error c p = None →
  chunk_content r ∈ chunk_content <$> expand_same_page c chunks.
Proof.
  intros Ha Hap Hr Hrp Herr.
  rewrite (expand_same_page_Permutation c chunks).
  apply (expand_loop_keeps c _ _ r p).
  - unfold page_results, collection_get. rewrite Herr. by apply list_elem_of_filter.
  - apply elem_of_pages_to_fetch, elem_of_page_set. by exists a.
  - set_solver.
Qed.

End ExpansionContents.

(* ===================================================================== *)
(** * Properties of the search and of the metadata look-ups *)
(* ===================================================================== *)

Section ReferenceOpsFacts.
Import ReferenceSearch ReferenceOps.
Variable s : Store.

(** The filter on a page is the one [_expand_same_page] fetches with. *)
Lemma matches_page page (l : list Chunk) :
  List.filter (matches (WhereEq "page" (VInt page))) l
  = filter (λ r, chunk_page r = Some page) l.
Proof.
  induction l as [|r l IH]; [done|].
  rewrite filter_cons. cbn [List.filter]. rewrite IH.
  assert (Hm : matches (WhereEq "page" (VInt page)) r
               = bool_decide (chunk_page r = Some page)).
  { simpl. unfold field_value. simpl. apply bool_decide_ext.
    destruct (chunk_page r); simpl; split; congruence. }
  rewrite Hm. destruct (decide (chunk_page r = Some page)) as [Hq|Hq].
  - by rewrite bool_decide_eq_true_2.
  - by rewrite bool_decide_eq_false_2.
Qed.

Lemma matches_page_eq page d :
  matches (WhereEq "page" (VInt page)) d = true → chunk_page d = Some page.
Proof.
  simpl. unfold field_value. simpl. intros H%bool_decide_eq_true.
  destruct (chunk_page d); simpl in H; congruence.
Qed.

Lemma matches_page_in pages d :
  matches (WhereIn "page" (VInt <$> pages)) d = true →
  ∃ p, p ∈ pages ∧ chunk_page d = Some p.
Proof.
  simpl. unfold field_value. simpl.
  destruct (chunk_page d) as [q|]; simpl; [|done].
  intros (p & [= ->] & Hp)%bool_decide_eq_true%list_elem_of_fmap. eauto.
Qed.

(** X4. When the vector query answers with hits that the collection holds
    on pages that can be read, the search with expansion returns a list
    that is not empty, holds the content of every hit, and holds no content
    twice. *)
Theorem search_expanded_covers_hits (query : string) (top_k : nat)
    (filter : option where_filter) (hits : list Chunk) :
  query_answer s query top_k filter = Ok hits →
  hits ≠ [] →
  (∀ h, h ∈ hits → h ∈ records (store_collection s) ∧
                   ∃ p, chunk_page h = Some p ∧ get_error (store_collection s) p = None) →
  search s query top_k true filter ≠ [] ∧
  NoDup (chunk_content <$> search s query top_k true filter) ∧
  ∀ h, h ∈ hits → chunk_content h ∈ chunk_content <$> search s query top_k true filter.
Proof.
  intros Hq Hne Hhits.
  assert (Hs : search s query top_k true filter = expand_same_page (store_collection s) hits).
  { unfold search. rewrite Hq. by destruct hits. }
  rewrite Hs.
  assert (Hcov : ∀ h, h ∈ hits →
            chunk_content h ∈ chunk_content <$> expand_same_page (store_collection s) hits).
  { intros h Hh. destruct (Hhits h Hh) as (Hrec & p & Hp & Herr).
    by apply (expand_same_page_keeps _ hits h p). }
  split_and!; [|rewrite expand_same_page_Permutation; apply expand_loop_NoDup|done].
  destruct hits as [|h hits]; [done|].
  intros Hnil. specialize (Hcov h). rewrite Hnil in Hcov.
  assert (Hin : h ∈ h :: hits) by left. apply Hcov in Hin. inversion Hin.
Qed.

Lemma max_of_spec first rest :
  (∀ x, x ∈ first :: rest → (x ≤ max_of first rest)%Z) ∧ max_of first rest ∈ first :: rest.
Proof.
  unfold max_of. revert first. induction rest as [|y rest IH]; intros first; simpl.
  - split; [|left]. intros x [->|Hx]%elem_of_cons; [lia|inversion Hx].
  - destruct (IH (Z.max first y)) as [Hle Hin]. split.
    + intros x [->|[->|Hx]%elem_of_cons]%elem_of_cons.
      * specialize (Hle (Z.max first y)). assert (Z.max first y ∈ Z.max first y :: rest) by left.
        specialize (Hle H). lia.
      * specialize (Hle (Z.max first y)). assert (Z.max first y ∈ Z.max first y :: rest) by left.
        specialize (Hle H). lia.
      * apply Hle. by right.
    + apply elem_of_cons in Hin as [Hin|Hin]; [|right; by right].
      rewrite Hin. destruct (Z.max_spec first y) as [[_ ->]|[_ ->]]; [right; left|left].
Qed.

(** X5. When the read of the collection answers, [get_max_page] is the
    largest page number stored (a chunk without page counting as 0): no
    record lies beyond it, and some record lies on it unless the collection
    is empty, where the answer is 1. *)
Theorem get_max_page_is_maximum :
  get_all_error s = None →
  (∀ r, r ∈ records (store_collection s) → (default 0 (chunk_page r) ≤ get_max_page s)%Z) ∧
  (records (store_collection s) ≠ [] →
   ∃ r, r ∈ records (store_collection s) ∧ default 0%Z (chunk_page r) = get_max_page s) ∧
  (records (store_collection s) = [] → get_max_page s = 1%Z).
Proof.
  intros Herr. unfold get_max_page. rewrite Herr.
  destruct (records (store_collection s)) as [|r0 rs]; simpl.
  - split_and!; [intros r Hr; inversion Hr|done|done].
  - destruct (max_of_spec (default 0%Z (chunk_page r0))
                ((λ m, default 0%Z (chunk_page m)) <$> rs)) as [Hle Hin].
    split_and!; [| |done].
    + intros r Hr. apply Hle.
      exact (list_elem_of_fmap_2 (λ m : Chunk, default 0%Z (chunk_page m)) (r0 :: rs) r Hr).
    + intros _.
      pose proof (proj1 (list_elem_of_fmap (λ m : Chunk, default 0%Z (chunk_page m))
                           (r0 :: rs) _) Hin) as (r & Hr & Hrin).
      eauto.
Qed.

Section FetchFacts.
Variable sort_other : list Chunk → result (list Chunk).

Lemma add_unseen_length seen (rs : list Chunk) :
  length (add_unseen seen rs).2 ≤ length rs.
Proof.
  revert seen. induction rs as [|r rs IH]; intros seen; simpl; [done|].
  case_bool_decide as Hr.
  - specialize (IH seen). lia.
  - specialize (IH ({[chunk_content r]} ∪ seen)).
    destruct (add_unseen _ rs) as [seen' added]. simpl in *. lia.
Qed.

Lemma fetched_by_metadata_elem w limit d :
  d ∈ fetched_by_metadata s w limit →
  d ∈ records (store_collection s) ∧ matches w d = true.
Proof.
  unfold fetched_by_metadata, collection_get_where.
  destruct (get_where_error s w); [intros Hd; inversion Hd|].
  intros Hd%add_unseen_elem. apply subseteq_take in Hd.
  apply list_elem_of_In, List.filter_In in Hd as [Hd Hm].
  split; [by apply list_elem_of_In|done].
Qed.

Lemma fetched_by_metadata_length w limit :
  length (fetched_by_metadata s w limit) ≤ limit.
Proof.
  unfold fetched_by_metadata, collection_get_where.
  destruct (get_where_error s w); [simpl; lia|].
  etrans; [apply add_unseen_length|]. rewrite length_take. lia.
Qed.

Lemma fetch_by_metadata_sorted w limit :
  (∀ r, r ∈ records (store_collection s) → is_Some (bboxes_str r)) →
  fetch_by_metadata sort_other s w limit
  = Ok (stable_sort meta_leb (fetched_by_metadata s w limit)).
Proof.
  intros Hstr. unfold fetch_by_metadata.
  assert (forallb (λ d, bool_decide (is_Some (bboxes_str d)))
                  (fetched_by_metadata s w limit) = true) as ->; [|done].
  apply forallb_forall. intros d Hd%list_elem_of_In.
  apply bool_decide_eq_true, Hstr. by apply fetched_by_metadata_elem in Hd as [? _].
Qed.

(** X6. On a collection whose bboxes are strs, [fetch_by_metadata] returns
    at most [limit] chunks, all of them records that pass the filter, no
    content twice, in ascending order of (page, bboxes). *)
Theorem fetch_by_metadata_answer (w : where_filter) (limit : nat) :
  (∀ r, r ∈ records (store_collection s) → is_Some (bboxes_str r)) →
  ∃ out, fetch_by_metadata sort_other s w limit = Ok out ∧
         length out ≤ limit ∧
         NoDup (chunk_content <$> out) ∧
         (∀ d, d ∈ out → d ∈ records (store_collection s) ∧ matches w d = true) ∧
         Sorted (λ d1 d2, key_leb (meta_key d1) (meta_key d2) = true) out.
Proof.
  intros Hstr. eexists. split; [by apply fetch_by_metadata_sorted|].
  pose proof (stable_sort_Permutation meta_key key_leb (fetched_by_metadata s w limit)) as Hp.
  split_and!.
  - unfold meta_leb. rewrite Hp. apply fetched_by_metadata_length.
  - unfold meta_leb. rewrite Hp. unfold fetched_by_metadata.
    destruct (collection_get_where s w limit); [apply add_unseen_NoDup|constructor].
  - intros d Hd. unfold meta_leb in Hd. rewrite Hp in Hd.
    by apply fetched_by_metadata_elem in Hd.
  - apply (stable_sort_Sorted meta_key key_leb), key_leb_total.
Qed.

(** X7. [get_intro_chunks] raises [IndexError] on an empty list of pages;
    otherwise, on a collection whose bboxes are strs, it returns at most
    twenty chunks, each on one of the pages asked for. *)
Theorem get_intro_chunks_answer (pages : list Z) :
  (∀ r, r ∈ records (store_collection s) → is_Some (bboxes_str r)) →
  match pages with
  | [] => get_intro_chunks sort_other s pages
          = Raise (Exn "IndexError" "list index out of range")
  | _ => ∃ out, get_intro_chunks sort_other s pages = Ok out ∧
                length out ≤ 20 ∧
                ∀ d, d ∈ out → ∃ p, p ∈ pages ∧ chunk_page d = Some p
  end.
Proof.
  intros Hstr. destruct pages as [|p [|p' pages]]; [done| |].
  - unfold get_intro_chunks. rewrite fetch_by_metadata_sorted by done.
    pose proof (stable_sort_Permutation meta_key key_leb
                  (fetched_by_metadata s (WhereEq "page" (VInt p)) 20)) as Hp.
    eexists. split; [done|]. unfold meta_leb. split.
    + rewrite Hp. apply fetched_by_metadata_length.
    + intros d Hd. rewrite Hp in Hd.
      apply fetched_by_metadata_elem in Hd as [_ Hm%matches_page_eq].
      exists p. split; [left|done].
  - unfold get_intro_chunks. rewrite fetch_by_metadata_sorted by done.
    pose proof (stable_sort_Permutation meta_key key_leb
                  (fetched_by_metadata s (WhereIn "page" (VInt <$> p :: p' :: pages)) 20)) as Hp.
    eexists. split; [done|]. unfold meta_leb. split.
    + rewrite Hp. apply fetched_by_metadata_length.
    + intros d Hd. rewrite Hp in Hd.
      by apply fetched_by_metadata_elem in Hd as [_ Hm%matches_page_in].
Qed.

End FetchFacts.

End ReferenceOpsFacts.

(* ===================================================================== *)
(** * Further properties of the bulk indexing *)
(* ===================================================================== *)

Section BatchFacts.
Import ReferenceSearch Text.

Lemma split_batches_sizes {A} (fuel batch_size : nat) (documents : list A) :
  0 < batch_size →
  Forall (λ batch, 0 < length batch ≤ batch_size) (split_batches fuel batch_size documents).
Proof.
  intros Hbs. revert documents.
  induction fuel as [|fuel IH]; intros [|x documents]; simpl; try by constructor.
  constructor; [|apply IH].
  destruct batch_size as [|bs]; [lia|]. simpl. rewrite length_take. lia.
Qed.

Lemma ceil_div_step (n bs : nat) :
  0 < bs → 0 < n → (n + bs - 1) / bs = S ((n - bs + bs - 1) / bs).
Proof.
  intros Hbs Hn. destruct (decide (bs ≤ n)) as [Hle|Hlt].
  - replace (n + bs - 1) with ((n - bs + bs - 1) + 1 * bs) by lia.
    rewrite Nat.div_add by lia. lia.
  - replace (n - bs + bs - 1) with (bs - 1) by lia.
    rewrite (Nat.div_small (bs - 1)) by lia.
    symmetry. apply (Nat.div_unique _ _ _ (n - 1)); lia.
Qed.

Lemma split_batches_count {A} (fuel batch_size : nat) (documents : list A) :
  0 < batch_size → length documents ≤ fuel →
  length (split_batches fuel batch_size documents)
  = (length documents + batch_size - 1) / batch_size.
Proof.
  intros Hbs. revert documents.
  induction fuel as [|fuel IH]; intros [|x documents] Hlen;
    cbn [split_batches length] in *; try lia.
  - rewrite Nat.div_small; lia.
  - rewrite Nat.div_small; lia.
  - rewrite IH by (rewrite length_drop; simpl; lia).
    rewrite length_drop.
    change (length (x :: documents)) with (S (length documents)).
    rewrite (ceil_div_step (S (length documents)) batch_size) by lia.
    done.
Qed.

(** X8. For a positive batch size, the batches of [index_documents] are
    the documents cut in order into pieces that are not empty and hold at
    most [batch_size] documents; there are [(total + batch_size - 1) //
    batch_size] of them, the number the function logs. *)
Theorem make_batches_partition {A} (batch_size : nat) (documents : list A) :
  0 < batch_size →
  concat (make_batches batch_size documents) = documents ∧
  Forall (λ batch, 0 < length batch ≤ batch_size) (make_batches batch_size documents) ∧
  length (make_batches batch_size documents)
  = (length documents + batch_size - 1) / batch_size.
Proof.
  intros Hbs. unfold make_batches. split_and!.
  - by apply split_batches_concat.
  - by apply split_batches_sizes.
  - by apply split_batches_count.
Qed.

Lemma contains_has_char c rest s :
  contains (String c rest) s = true → has_char c s = true.
Proof.
  induction s as [|c' s IH]; simpl; [done|].
  destruct (ascii_dec c c') as [->|Hne].
  - intros _. by rewrite Ascii.eqb_refl.
  - simpl. intros H%IH. rewrite H. apply orb_true_r.
Qed.

Lemma has_char_app c s1 s2 : has_char c (s1 +:+ s2) = has_char c s1 || has_char c s2.
Proof. induction s1 as [|c' s1 IH]; simpl; [done|]. by rewrite IH, orb_assoc. Qed.

Lemma contains_app_r needle s1 s2 :
  contains needle s2 = true → contains needle (s1 +:+ s2) = true.
Proof.
  intros H. induction s1 as [|c s1 IH]; simpl; [done|].
  rewrite IH. apply orb_true_r.
Qed.

Lemma pretty_N_char_not_O (d : N) : (d < 10)%N → Ascii.eqb "O" (pretty_N_char d) = false.
Proof.
  intros Hd.
  assert (d = 0 ∨ d = 1 ∨ d = 2 ∨ d = 3 ∨ d = 4 ∨ d = 5 ∨ d = 6 ∨ d = 7 ∨ d = 8 ∨ d = 9)%N
    as Hcases by lia.
  destruct Hcases as [->|[->|[->|[->|[->|[->|[->|[->|[->| ->]]]]]]]]]; reflexivity.
Qed.

Lemma has_char_pretty_N_go (x : N) (s : string) :
  has_char "O" (pretty_N_go x s) = has_char "O" s.
Proof.
  revert s. induction (N.lt_wf_0 x) as [x _ IH]; intros s.
  destruct (decide (x = 0)%N) as [->|Hx]; [done|].
  rewrite pretty_N_go_step by lia.
  rewrite IH by (apply N.div_lt; lia).
  change (has_char "O" (String (pretty_N_char (x `mod` 10)) s))
    with (Ascii.eqb "O" (pretty_N_char (x `mod` 10)) || has_char "O" s).
  rewrite pretty_N_char_not_O; [done|]. apply N.mod_lt. lia.
Qed.

Lemma has_char_pretty_nat (n : nat) : has_char "O" (pretty n) = false.
Proof.
  unfold pretty, pretty_nat, pretty, pretty_N.
  case_decide; [done|]. by rewrite has_char_pretty_N_go.
Qed.

(** The report of a batch given up never passes for a success. *)
Lemma batch_failed_not_ok (n : nat) : contains "OK" (batch_failed n) = false.
Proof.
  destruct (contains "OK" (batch_failed n)) eqn:E; [|done].
  apply contains_has_char in E. unfold batch_failed in E.
  rewrite !has_char_app, !has_char_pretty_nat in E. done.
Qed.

Lemma batch_ok_is_ok (n : nat) : contains "OK" (batch_ok n) = true.
Proof. unfold batch_ok. by do 2 apply contains_app_r. Qed.

Variable w : IndexWorld.
Local Abbreviation rate_limited_at := (ReferenceOps.rate_limited_at w).

Lemma process_batch_loop_recovers i retries_left retry_count k :
  k ≤ retries_left →
  (∀ j, j < k → rate_limited_at i (retry_count + j)) →
  is_ok (upsert w i (retry_count + k)) = true →
  process_batch_loop w i retries_left retry_count = batch_ok (i + 1).
Proof.
  revert retries_left retry_count.
  induction k as [|k IH]; intros retries_left retry_count Hk Hlim Hok.
  - rewrite Nat.add_0_r in Hok.
    destruct retries_left; simpl; by destruct (upsert w i retry_count).
  - destruct retries_left as [|retries_left]; [lia|].
    destruct (Hlim 0) as (e & He & Hrl); [lia|]. rewrite Nat.add_0_r in He.
    simpl. rewrite He, Hrl. apply (IH retries_left (S retry_count)); [lia| |].
    + intros j Hj. replace (S retry_count + j) with (retry_count + S j) by lia.
      apply Hlim. lia.
    + by replace (S retry_count + k) with (retry_count + S k) by lia.
Qed.

Lemma process_batch_loop_exhausted i retries_left retry_count :
  (∀ j, j ≤ retries_left → rate_limited_at i (retry_count + j)) →
  process_batch_loop w i retries_left retry_count = batch_failed (i + 1).
Proof.
  revert retry_count.
  induction retries_left as [|retries_left IH]; intros retry_count Hlim.
  - destruct (Hlim 0) as (e & He & Hrl); [lia|]. rewrite Nat.add_0_r in He.
    simpl. by rewrite He, Hrl.
  - destruct (Hlim 0) as (e & He & Hrl); [lia|]. rewrite Nat.add_0_r in He.
    simpl. rewrite He, Hrl. apply IH.
    intros j Hj. replace (S retry_count + j) with (retry_count + S j) by lia.
    apply Hlim. lia.
Qed.

(** X9. If, for every batch, some attempt among the first four succeeds
    after nothing but rate-limit errors, and the final count answers,
    [index_documents] returns normally. *)
Theorem index_documents_returns_when_batches_recover {A}
    (documents : list A) (batch_size : nat) :
  0 < batch_size →
  (∀ i, i < length (make_batches batch_size documents) →
        ∃ k, k ≤ max_retries ∧
             (∀ j, j < k → rate_limited_at i j) ∧
             is_ok (upsert w i k) = true) →
  is_ok (collection_count w) = true →
  index_documents w documents batch_size = Ok tt.
Proof.
  intros Hbs Hrec Hcount. apply index_documents_ok_iff. split_and!; [lia| |done].
  intros i Hi. destruct (Hrec i Hi) as (k & Hk & Hlim & Hok).
  unfold process_batch.
  rewrite (process_batch_loop_recovers i max_retries 0 k); [apply batch_ok_is_ok|done..].
Qed.

(** X10. If the upsert of some batch meets a rate-limit error at each of
    its four attempts, [index_documents] raises, whatever happens to the
    other batches. *)
Theorem index_documents_raises_on_exhausted_batch {A}
    (documents : list A) (batch_size i : nat) :
  i < length (make_batches batch_size documents) →
  (∀ j, j ≤ max_retries → rate_limited_at i j) →
  ∃ e, index_documents w documents batch_size = Raise e.
Proof.
  intros Hi Hlim.
  destruct (index_documents w documents batch_size) as [[]|e] eqn:E; [|eauto].
  apply index_documents_ok_iff in E as (_ & Hok & _).
  specialize (Hok i Hi). unfold process_batch in Hok.
  rewrite (process_batch_loop_exhausted i max_retries 0) in Hok by done.
  by rewrite batch_failed_not_ok in Hok.
Qed.

End BatchFacts.

(* ===================================================================== *)
(** * Further properties of the hybrid book search *)
(* ===================================================================== *)

Section ChainFacts.
Import BookSearch BookTools.
Context {Score : Type} `{EqDecision Score}.
Variable score_ltb : Score → Score → bool.
Variable weighted_reciprocal_rank : list (list Document) → list Document.
Variable format_4f : value → result string.
Variable W : World Score.
Variable json_loads : string → result (list (string * value)).

Lemma submseteq_NoDup_keys {A B} (f : A → B) (l k : list A) :
  l ⊆+ k → NoDup (f <$> k) → NoDup (f <$> l).
Proof.
  intros (k' & Hk)%submseteq_Permutation. rewrite Hk, fmap_app.
  by intros [? _]%NoDup_app.
Qed.

Lemma zip_fst_submseteq {A B} (l : list A) (k : list B) : (zip l k).*1 ⊆+ l.
Proof.
  revert k. induction l as [|x l IH]; intros [|y k]; simpl; try done.
  - apply submseteq_nil_l.
  - by apply submseteq_skip.
Qed.

(** The documents of the scored arrangement the reranker cuts at
    [top_n]. *)
Lemma base_compress_documents_ranked top_n documents query scores :
  model_score W ((λ doc, (query, page_content doc)) <$> documents) = Ok scores →
  base_compress_documents score_ltb W top_n documents query
  = ([ModelScore ((λ doc, (query, page_content doc)) <$> documents)],
     Ok (take top_n (stable_sort (λ a b, negb (score_ltb a.2 b.2))
                                 (zip documents scores))).*1).
Proof.
  intros Hs. unfold base_compress_documents, call, bind, ret. by rewrite Hs.
Qed.

Lemma compress_documents_inv top_n documents query t out :
  compress_documents score_ltb format_4f W top_n documents query = (t, Ok out) →
  documents = [] ∧ out = [] ∨
  ∃ scores,
    model_score W ((λ doc, (query, page_content doc)) <$> documents) = Ok scores ∧
    out = (take top_n (stable_sort (λ a b, negb (score_ltb a.2 b.2))
                                   (zip documents scores))).*1.
Proof.
  destruct documents as [|d documents]; [intros [= _ <-]; by left|].
  intros Hc. right. unfold compress_documents in Hc.
  destruct (model_score W ((λ doc, (query, page_content doc)) <$> d :: documents))
    as [scores|e] eqn:Hs.
  - exists scores. split; [done|].
    rewrite (base_compress_documents_ranked _ _ _ scores Hs) in Hc.
    unfold bind, ret in Hc.
    destruct (log_scores _ _); simpl in Hc; [by injection Hc as _ <-|done].
  - unfold base_compress_documents, call, bind in Hc. rewrite Hs in Hc. done.
Qed.

Lemma compress_documents_sub top_n documents query t out :
  compress_documents score_ltb format_4f W top_n documents query = (t, Ok out) →
  out ⊆+ documents ∧ length out ≤ top_n.
Proof.
  intros [[-> ->]|(scores & _ & ->)]%compress_documents_inv; [split; [done|simpl; lia]|].
  split.
  - etrans; [apply fmap_submseteq, submseteq_take|].
    rewrite (stable_sort_Permutation snd (λ x y, negb (score_ltb x y))).
    apply zip_fst_submseteq.
  - rewrite length_fmap, length_take. lia.
Qed.

(** What the chain returns is cut out of the filtered fusion of two
    lists. *)
Lemma retrieval_chain_invoke_sub query t out :
  retrieval_chain_invoke score_ltb weighted_reciprocal_rank format_4f W query = (t, Ok out) →
  length out ≤ 5 ∧
  ∃ lexical semantic, out ⊆+ unique_docs (weighted_reciprocal_rank [lexical; semantic]).
Proof.
  unfold retrieval_chain_invoke. intros Hc.
  destruct (unique_ensemble_invoke weighted_reciprocal_rank W 20 query)
    as [t1 [docs|e]] eqn:Hu; [|done].
  apply unique_ensemble_invoke_result in Hu as (lexical & semantic & ->).
  unfold bind in Hc.
  destruct (unique_docs _) as [|d docs] eqn:Hd.
  - injection Hc as _ <-. split; [simpl; lia|]. exists lexical, semantic. by rewrite Hd.
  - destruct (compress_documents _ _ _ _ _ _) as [t2 r] eqn:Hcd.
    injection Hc as _ ->.
    apply compress_documents_sub in Hcd as [Hsub Hlen].
    split; [done|]. exists lexical, semantic. by rewrite Hd.
Qed.

Lemma retrieval_chain_invoke_keys query t out :
  retrieval_chain_invoke score_ltb weighted_reciprocal_rank format_4f W query = (t, Ok out) →
  length out ≤ 5 ∧ NoDup (isbn_key <$> out) ∧ ∀ d, d ∈ out → isbn_key d ≠ "".
Proof.
  intros (Hlen & lexical & semantic & Hsub)%retrieval_chain_invoke_sub.
  split_and!; [done| |].
  - eapply submseteq_NoDup_keys; [done|]. apply unique_loop_NoDup.
  - intros d Hd. eapply elem_of_submseteq in Hd; [|done].
    by apply unique_loop_elem in Hd as (? & _ & _).
Qed.

(** X11. Whatever the sources and the model answer, a search that
    succeeds returns at most five documents, with pairwise distinct ISBN
    keys, none of them empty. *)
Theorem retrieval_chain_at_most_five_distinct (query : string)
    (t : list event) (out : list Document) :
  retrieval_chain_invoke score_ltb weighted_reciprocal_rank format_4f W query = (t, Ok out) →
  length out ≤ 5 ∧ NoDup (isbn_key <$> out) ∧ ∀ d, d ∈ out → isbn_key d ≠ "".
Proof. apply retrieval_chain_invoke_keys. Qed.

(** X12. An exception of the full-text search does not stop the search:
    the fusion receives an empty lexical list and the documents of the
    semantic source, and the database error is not reported. *)
Theorem lexical_failure_falls_back_to_semantic (query : string) (e : exn)
    (semantic : list Document) :
  sql_fulltext W query 20 = Raise e →
  similarity_search W query 20 = Ok semantic →
  unique_ensemble_invoke weighted_reciprocal_rank W 20 query
  = ([SqlFullText query 20; SimilaritySearch query 20],
     Ok (unique_docs (weighted_reciprocal_rank
           [[]; (λ doc, mkDocument (page_content doc)
                          (<["isbn" := VStr (str (dict_get (metadata doc) "isbn" (VStr "")))]>
                           (metadata doc))) <$> semantic]))).
Proof.
  intros Hsql Hsem.
  unfold unique_ensemble_invoke, ensemble_invoke.
  rewrite (sql_failure_absorbed W 20 query e Hsql).
  unfold chroma_get_relevant_documents, call, bind, ret. by rewrite Hsem.
Qed.


Lemma fetch_full_book_details_ok isbns :
  ∃ t details, fetch_full_book_details W isbns = (t, Ok details).
Proof.
  unfold fetch_full_book_details. destruct isbns; [by eexists _, _|].
  unfold try_except, call, bind, ret.
  destruct (sql_book_details W _); simpl; by eexists _, _.
Qed.

Lemma query_or_first_value_raises d e :
  query_or_first_value d = Raise e →
  d = [] ∧ e = Exn "IndexError" "list index out of range".
Proof.
  unfold query_or_first_value. destruct (truthy _); [done|].
  destruct d as [|[k v] d]; [|done]. by intros [= <-].
Qed.

Lemma normalize_query_raises query e :
  normalize_query json_loads query = Raise e →
  query = InDict [] ∧ e = Exn "IndexError" "list index out of range".
Proof.
  destruct query as [s|d]; simpl.
  - destruct (startswith _ _); [|done].
    destruct (json_loads s) as [data|]; [|done].
    by destruct (query_or_first_value data).
  - intros [-> ->]%query_or_first_value_raises. done.
Qed.

(** X14. Once the retrieval chain is built, [book_search_tool] raises in
    two cases only: on the empty dict, with [IndexError], and when the
    chain raises on the stripped query.  A failure of the query for the
    book details never makes it raise. *)
Theorem book_search_tool_raises_iff (query : tool_input) (e : exn) :
  snd (book_search_tool score_ltb weighted_reciprocal_rank format_4f W json_loads query)
  = Raise e ↔
  (query = InDict [] ∧ e = Exn "IndexError" "list index out of range") ∨
  (∃ v, normalize_query json_loads query = Ok v ∧ truthy v = true ∧
        snd (retrieval_chain_invoke score_ltb weighted_reciprocal_rank format_4f W
               (strip (str v))) = Raise e).
Proof.
  unfold book_search_tool.
  destruct (normalize_query json_loads query) as [v|e'] eqn:Hn.
  - unfold bind at 1. destruct (truthy v) eqn:Hv; simpl.
    + destruct (retrieval_chain_invoke _ _ _ _ _) as [t [docs|e1]] eqn:Hc; simpl.
      * destruct (fetch_full_book_details_ok
                    ((λ doc, dict_get (metadata doc) "isbn" VNone) <$> docs))
          as (t' & details & Hf).
        rewrite Hf. simpl. split.
        -- by destruct (imap _ docs).
        -- intros [[-> _]|(v' & [= <-] & _ & Hr)]; [done|].
           rewrite Hc in Hr. done.
      * split.
        -- intros [= ->]. right. exists v. by rewrite Hc.
        -- intros [[-> _]|(v' & [= <-] & _ & Hr)]; [done|].
           rewrite Hc in Hr. simpl in Hr. congruence.
    + split; [done|]. intros [[-> _]|(v' & [= <-] & Hv' & _)]; [done|congruence].
  - apply normalize_query_raises in Hn as Hq. destruct Hq as [-> ->].
    simpl. split; [intros [= <-]; by left|].
    intros [[_ ->]|(v' & Hv' & _)]; [done|]. done.
Qed.

(** X15. [search_books_simple], when it succeeds, returns at most five
    records; their ISBNs are pairwise distinct and none is blank. *)
Theorem search_books_simple_records (query : string) (t : list event)
    (records : list BookRecord) :
  search_books_simple score_ltb weighted_reciprocal_rank format_4f W query
  = (t, Ok records) →
  length records ≤ 5 ∧
  NoDup (rec_isbn <$> records) ∧
  ∀ r, r ∈ records → strip (str (rec_isbn r)) ≠ "".
Proof.
  unfold search_books_simple, call. unfold bind at 1.
  destruct (retrieval_chain_invoke _ _ _ _ _) as [t1 [docs|e1]] eqn:Hc; [|done].
  apply retrieval_chain_invoke_keys in Hc as (Hlen & Hnd & Hne).
  unfold bind at 1.
  destruct (fetch_full_book_details_ok
              ((λ doc, dict_get (metadata doc) "isbn" VNone) <$> docs))
    as (t' & details & Hf).
  rewrite Hf. simpl. intros [= _ <-].
  assert (Hisbn : ∀ d, d ∈ docs →
            isbn_key d = strip (str (rec_isbn (book_record details d)))).
  { intros d Hd. specialize (Hne d Hd). unfold isbn_key in Hne |- *.
    cbn [rec_isbn book_record]. unfold dict_get in Hne |- *.
    destruct (metadata d !! "isbn") as [v|]; [done|].
    exfalso. apply Hne. reflexivity. }
  split_and!.
  - by rewrite length_fmap.
  - assert (Heq : (λ v, strip (str v)) <$> (rec_isbn <$> (book_record details <$> docs))
                  = isbn_key <$> docs).
    { rewrite <- !list_fmap_compose. apply list_fmap_ext.
      intros i d Hd%list_elem_of_lookup_2. simpl. symmetry. by apply Hisbn. }
    apply (NoDup_fmap_1 (λ v, strip (str v))). by rewrite Heq.
  - intros r (d & -> & Hd)%list_elem_of_fmap.
    rewrite <- (Hisbn d Hd). by apply Hne.
Qed.

(** X16. [sql_check_book_status_tool] raises on the empty dict and on
    nothing else: a database error, an unknown ISBN and an unparsable text
    are all answered with a string. *)
Theorem status_tool_raises_iff (status_query : string → result (option StatusRow))
    (isbn : tool_input) :
  (∃ e, snd (sql_check_book_status_tool json_loads status_query isbn) = Raise e)
  ↔ isbn = InDict [].
Proof.
  unfold sql_check_book_status_tool. split.
  - intros [e He].
    destruct (normalize_isbn json_loads isbn) as [v|e'] eqn:Hn.
    + by destruct (truthy v).
    + destruct isbn as [s|d]; simpl in Hn.
      * destruct (startswith _ _); [|done].
        destruct (json_loads s) as [data|]; [|done].
        by destruct (value_or_first "isbn" data).
      * unfold value_or_first in Hn. destruct (truthy _); [done|].
        by destruct d as [|[k v] d].
  - intros ->. simpl. eauto.
Qed.

End ChainFacts.

(* ===================================================================== *)
(** * Further properties of the retriever cache and of the PDF search *)
(* ===================================================================== *)

Section PdfSearchFacts.
Import ReferenceOps PdfReaderTool PdfSearch.
Variable path_exists : string → bool.
Variable build : Builder.
Variable store_of : Retriever → Store.

Lemma cache_kept_step q st p r :
  cache st !! p = Some r →
  cache (get_or_create_retriever build q st).1 !! p = Some r.
Proof.
  intros Hp. unfold get_or_create_retriever.
  destruct (cache st !! q) as [r'|] eqn:Hq; [done|].
  destruct (build q _); simpl; [|done].
  rewrite lookup_insert_ne; [done|]. intros ->. congruence.
Qed.

(** X17. A retriever that is in the cache stays there, unchanged, through
    any later calls made one after the other. *)
Theorem cached_retriever_is_kept (paths : list string) (st : State)
    (p : string) (r : Retriever) :
  cache st !! p = Some r →
  cache (run_calls build paths st) !! p = Some r.
Proof.
  revert st. induction paths as [|q paths IH]; intros st Hp; [done|].
  simpl. by apply IH, cache_kept_step.
Qed.

Lemma cache_sound_step q st :
  cache_sound st → cache_sound (get_or_create_retriever build q st).1.
Proof.
  intros Hs p r. unfold get_or_create_retriever.
  destruct (cache st !! q) as [r'|] eqn:Hq; [apply Hs|].
  destruct (build q _); simpl.
  - destruct (decide (q = p)) as [->|Hne].
    + rewrite lookup_insert_eq. intros [= <-]. simpl. split; [done|].
      by rewrite list_lookup_middle.
    + rewrite lookup_insert_ne by done. intros [Hpath Hb]%Hs.
      split; [done|]. by apply lookup_app_l_Some.
  - intros [Hpath Hb]%Hs. split; [done|]. by apply lookup_app_l_Some.
Qed.

Lemma cache_sound_run paths st : cache_sound st → cache_sound (run_calls build paths st).
Proof.
  revert st. induction paths as [|q paths IH]; intros st Hs; [done|].
  simpl. by apply IH, cache_sound_step.
Qed.

(** X18. After any calls made one after the other from the empty cache,
    the retriever stored under a path was built for that path, by a build
    that is on record as having gone through. *)
Theorem cached_retriever_was_built (paths : list string) (p : string) (r : Retriever) :
  cache (run_calls build paths initial) !! p = Some r →
  retriever_path r = p ∧
  builds (run_calls build paths initial) !! retriever_build r = Some (p, true).
Proof.
  apply (cache_sound_run paths initial). intros p' r' Hp'. done.
Qed.

Lemma pdf_reader_search_state pdf_path query st :
  (pdf_reader_search path_exists build store_of pdf_path query st).1
  = if path_exists pdf_path then (get_or_create_retriever build pdf_path st).1 else st.
Proof.
  unfold pdf_reader_search. destruct (path_exists pdf_path); simpl; [|done].
  destruct (get_or_create_retriever build pdf_path st) as [st' [r|e]]; simpl; [|done].
  by destruct (search _ _ _ _ _).
Qed.

Local Abbreviation builds_exist := (PdfSearch.builds_exist path_exists).

Lemma builds_exist_step pdf_path query st :
  builds_exist st →
  builds_exist (pdf_reader_search path_exists build store_of pdf_path query st).1.
Proof.
  intros Hb. rewrite pdf_reader_search_state.
  destruct (path_exists pdf_path) eqn:He; [|done].
  unfold get_or_create_retriever.
  destruct (cache st !! pdf_path); [done|].
  destruct (build pdf_path _); simpl;
    intros b [Hin|Hin%list_elem_of_singleton]%elem_of_app; subst; auto.
Qed.

Lemma cache_counts_search pdf_path query st :
  cache_counts st →
  cache_counts (pdf_reader_search path_exists build store_of pdf_path query st).1.
Proof.
  intros Hc. rewrite pdf_reader_search_state.
  destruct (path_exists pdf_path); [by apply cache_counts_step|done].
Qed.

Lemma run_searches_invariant requests st :
  cache_counts st → builds_exist st →
  cache_counts (run_searches path_exists build store_of requests st) ∧
  builds_exist (run_searches path_exists build store_of requests st).
Proof.
  revert st. induction requests as [|[p q] requests IH]; intros st Hc Hb; [done|].
  simpl. apply IH; [by apply cache_counts_search|by apply builds_exist_step].
Qed.

(** X19. Through any searches made one after the other from the empty
    cache, at most one build per path goes through, and a path that does
    not exist is never built. *)
Theorem run_searches_builds (requests : list (string * string)) (p : string) :
  good_builds_of p (run_searches path_exists build store_of requests initial) ≤ 1 ∧
  (path_exists p = false →
   builds_of p (run_searches path_exists build store_of requests initial) = 0).
Proof.
  destruct (run_searches_invariant requests initial) as [Hc Hb].
  { apply cache_counts_initial. }
  { intros b Hin. inversion Hin. }
  split.
  - rewrite (Hc p). destruct (cache _ !! p); lia.
  - intros Hp. unfold builds_of.
    assert (List.filter (λ b, String.eqb b.1 p)
              (builds (run_searches path_exists build store_of requests initial)) = [])
      as ->; [|done].
    apply list_filter_nil. intros b Hin.
    apply String.eqb_neq. intros Heq. apply Hb in Hin. congruence.
Qed.

End PdfSearchFacts.

(* ===================================================================== *)
(** * Properties of the grouping of items into chunks *)
(* ===================================================================== *)

Section IngestionFacts.
Import Text Ingestion.
Context {Bbox : Type}.
Variables source filename : string.

Local Abbreviation step := (@loop_step Bbox source filename).
Local Abbreviation start := (@mkLoopState Bbox [] "N/A").

Lemma string_app_assoc (a b c : string) : (a +:+ b) +:+ c = a +:+ (b +:+ c).
Proof.
  induction a as [|x a IH]; [done|].
  change (String x ((a +:+ b) +:+ c) = String x (a +:+ (b +:+ c))).
  by rewrite IH.
Qed.

Lemma string_app_empty (a b : string) : a +:+ b = "" → a = "".
Proof. by destruct a. Qed.

Lemma py_len_app (a b : string) : py_len (a +:+ b) = py_len a + py_len b.
Proof. induction a as [|x a IH]; simpl; [done|]. rewrite IH. lia. Qed.

Lemma join_snoc (sep : string) (l : list string) (c : string) :
  l ≠ [] → join sep (l ++ [c]) = join sep l +:+ sep +:+ c.
Proof.
  unfold join. induction l as [|x l IH]; [done|]. intros _.
  destruct l as [|y l]; [done|].
  change (String.concat sep ((x :: y :: l) ++ [c]))
    with (x +:+ sep +:+ String.concat sep ((y :: l) ++ [c])).
  rewrite IH by done.
  change (String.concat sep (x :: y :: l)) with (x +:+ sep +:+ String.concat sep (y :: l)).
  by rewrite !string_app_assoc.
Qed.

Lemma join_snoc_extend (sep : string) (l : list string) (a s : string) :
  join sep (l ++ [a +:+ s]) = join sep (l ++ [a]) +:+ s.
Proof.
  unfold join. induction l as [|x l IH]; [done|].
  destruct l as [|y l].
  - simpl. by rewrite !string_app_assoc.
  - change (String.concat sep ((x :: y :: l) ++ [a +:+ s]))
      with (x +:+ sep +:+ String.concat sep ((y :: l) ++ [a +:+ s])).
    rewrite IH.
    change (String.concat sep ((x :: y :: l) ++ [a]))
      with (x +:+ sep +:+ String.concat sep ((y :: l) ++ [a])).
    by rewrite !string_app_assoc.
Qed.

Lemma joins_true (last : Doc Bbox) type page_no heading :
  joins last type page_no heading = true →
  type = "text" ∧ doc_type last = "text" ∧ doc_page last = page_no ∧
  doc_heading last = heading ∧ py_len (doc_content last) < 1000.
Proof.
  unfold joins. rewrite !andb_true_iff.
  intros [[[[H1 H2] H3] H4] H5].
  apply String.eqb_eq in H1, H2, H4. apply Z.eqb_eq in H3. apply Nat.ltb_lt in H5.
  done.
Qed.

(** What holds of every chunk under construction. *)
Lemma loop_step_docs (P : Doc Bbox → Prop) (st : LoopState Bbox) (item : Item Bbox) :
  (∀ d, d ∈ docs_rev st → P d) →
  (∀ heading, item_content item ≠ "" →
     (item_class item = SectionHeaderItem → heading = item_content item) →
     P (mkDoc (item_content item) source filename (item_page item)
              (get_bbox_list item) (item_type item) heading)) →
  (∀ last, P last → doc_type last = "text" → py_len (doc_content last) < 1000 →
     item_content item ≠ "" →
     P (mkDoc (doc_content last +:+ NL +:+ item_content item) (doc_source last)
              (doc_filename last) (doc_page last)
              (doc_bboxes last ++ get_bbox_list item) (doc_type last) (doc_heading last))) →
  ∀ d, d ∈ docs_rev (step st item) → P d.
Proof.
  intros Hold Hfresh Hmerge d. unfold loop_step.
  destruct (String.eqb_spec (item_content item) "") as [Hc|Hc]; [apply Hold|].
  set (heading := match item_class item with
                  | SectionHeaderItem => item_content item
                  | _ => current_heading st
                  end).
  assert (Hh : item_class item = SectionHeaderItem → heading = item_content item).
  { intros Hk. unfold heading. by rewrite Hk. }
  destruct (docs_rev st) as [|last rest] eqn:Hd.
  - simpl. intros ->%list_elem_of_singleton. by apply Hfresh.
  - destruct (joins last _ _ _) eqn:Hj; simpl.
    + apply joins_true in Hj as (_ & Ht & _ & _ & Hlen).
      intros [->|Hin]%elem_of_cons.
      * apply Hmerge; [apply Hold; left|done..].
      * apply Hold. by right.
    + intros [->|Hin]%elem_of_cons; [by apply Hfresh|by apply Hold].
Qed.

Lemma foldl_docs (P : Doc Bbox → Prop) (items : list (Item Bbox)) (st : LoopState Bbox) :
  (∀ d, d ∈ docs_rev st → P d) →
  (∀ st' item, item ∈ items → (∀ d, d ∈ docs_rev st' → P d) →
               ∀ d, d ∈ docs_rev (step st' item) → P d) →
  ∀ d, d ∈ docs_rev (foldl step st items) → P d.
Proof.
  revert st. induction items as [|item items IH]; intros st Hst Hstep; [done|].
  simpl. apply IH.
  - apply Hstep; [left|done].
  - intros st' item' Hin. apply Hstep. by right.
Qed.

(** X20. Every chunk that [process_pdf] builds has a content that is not
    empty, carries the source and the file name of the run, is of type
    heading, table or text, and, when it is a heading, has its own text as
    parent heading. *)
Theorem process_items_well_formed (items : list (Item Bbox)) (d : Doc Bbox) :
  d ∈ process_items source filename items →
  doc_content d ≠ "" ∧
  doc_source d = source ∧ doc_filename d = filename ∧
  (doc_type d = "heading" ∨ doc_type d = "table" ∨ doc_type d = "text") ∧
  (doc_type d = "heading" → doc_heading d = doc_content d).
Proof.
  unfold process_items. rewrite elem_of_reverse. revert d.
  apply foldl_docs; [intros d Hd; inversion Hd|].
  intros st item _ Hold. apply loop_step_docs; [done| |].
  - intros heading Hc Hh. simpl. split_and!; [done|done|done| |].
    + unfold item_type. destruct (item_class item); auto.
    + unfold item_type. intros Ht. destruct (item_class item) eqn:Hk; try done.
      by apply Hh.
  - intros last (Hc & Hs & Hf & Ht & Hh) Htext _ _. simpl.
    split_and!; [|done|done|done|].
    + intros Hempty%string_app_empty. done.
    + rewrite Htext. done.
Qed.

(** X21. If no item has a content of more than [bound] characters, no
    chunk has more than [1000 + bound]: an item joins a chunk only while
    the chunk has fewer than 1000. *)
Theorem process_items_size (items : list (Item Bbox)) (bound : nat) (d : Doc Bbox) :
  (∀ item, item ∈ items → py_len (item_content item) ≤ bound) →
  d ∈ process_items source filename items →
  py_len (doc_content d) ≤ 1000 + bound.
Proof.
  intros Hb. unfold process_items. rewrite elem_of_reverse. revert d.
  apply foldl_docs; [intros d Hd; inversion Hd|].
  intros st item Hin Hold. specialize (Hb item Hin).
  apply loop_step_docs; [done| |].
  - intros heading _ _. simpl. lia.
  - intros last _ _ Hlen _. simpl. rewrite !py_len_app.
    change (py_len NL) with 1. lia.
Qed.

(** The texts of the chunks are the contents kept so far, joined. *)
Lemma loop_step_texts (st : LoopState Bbox) (item : Item Bbox) (kept : list string) :
  join NL (doc_content <$> reverse (docs_rev st)) = join NL kept →
  (docs_rev st = [] ↔ kept = []) →
  let kept' := kept ++ (if String.eqb (item_content item) "" then []
                        else [item_content item]) in
  join NL (doc_content <$> reverse (docs_rev (step st item))) = join NL kept' ∧
  (docs_rev (step st item) = [] ↔ kept' = []).
Proof.
  intros Hj He. unfold loop_step.
  destruct (String.eqb_spec (item_content item) "") as [Hc|Hc]; simpl.
  { by rewrite app_nil_r. }
  destruct (docs_rev st) as [|last rest] eqn:Hd.
  - assert (kept = []) as -> by by apply He. simpl. split; [done|]. split; done.
  - assert (Hk : kept ≠ []) by (intros Hk; apply He in Hk; done).
    assert (Hgoal : join NL (kept ++ [item_content item])
                    = join NL (doc_content <$> reverse (last :: rest))
                      +:+ NL +:+ item_content item).
    { rewrite join_snoc by done. by rewrite Hj. }
    destruct (joins last _ _ _); simpl.
    + split; [|split; [done|by intros [_ ?]%app_eq_nil]].
      rewrite Hgoal, !reverse_cons, !fmap_app. simpl.
      by rewrite join_snoc_extend.
    + split; [|split; [done|by intros [_ ?]%app_eq_nil]].
      rewrite Hgoal. rewrite (reverse_cons (last :: rest)), fmap_app. simpl.
      rewrite join_snoc; [done|].
      rewrite reverse_cons, fmap_app. by intros [_ ?]%app_eq_nil.
Qed.

Lemma kept_contents_snoc (items : list (Item Bbox)) (item : Item Bbox) :
  kept_contents (items ++ [item])
  = kept_contents items ++ (if String.eqb (item_content item) "" then []
                            else [item_content item]).
Proof.
  unfold kept_contents. rewrite fmap_app, List.filter_app. simpl.
  by destruct (String.eqb (item_content item) "").
Qed.

Lemma foldl_texts (items : list (Item Bbox)) :
  join NL (doc_content <$> reverse (docs_rev (foldl step start items)))
  = join NL (kept_contents items) ∧
  (docs_rev (foldl step start items) = [] ↔ kept_contents items = []).
Proof.
  induction items as [|item items IH] using rev_ind; [done|].
  rewrite foldl_snoc, kept_contents_snoc.
  destruct IH as [Hj He]. by apply loop_step_texts.
Qed.

(** X22. Nothing is lost and nothing moves: the contents of the chunks,
    joined by line feeds, are the contents of the items that are not
    empty, in order, joined by line feeds. *)
Theorem process_items_keeps_text (items : list (Item Bbox)) :
  join NL (doc_content <$> process_items source filename items)
  = join NL (kept_contents items).
Proof. apply foldl_texts. Qed.

Local Abbreviation greedy := (@Ingestion.greedy Bbox).

Lemma joins_false (last : Doc Bbox) page_no heading :
  joins last "text" page_no heading = false →
  doc_type last = "text" → doc_page last = page_no → doc_heading last = heading →
  1000 ≤ py_len (doc_content last).
Proof.
  unfold joins. intros Hj Ht Hp Hh.
  rewrite Ht, Hp, Hh, Z.eqb_refl, !String.eqb_refl in Hj. simpl in Hj.
  apply Nat.ltb_ge in Hj. done.
Qed.

Lemma loop_step_greedy (st : LoopState Bbox) (item : Item Bbox) :
  greedy (docs_rev st) → greedy (docs_rev (step st item)).
Proof.
  intros Hg. unfold loop_step.
  destruct (String.eqb_spec (item_content item) "") as [Hc|Hc]; [done|].
  destruct (docs_rev st) as [|last rest] eqn:Hd.
  - simpl. intros [|x [|y pre]] later earlier post Heq; simplify_eq.
  - destruct (joins last _ _ _) eqn:Hj; simpl.
    + intros [|x pre] later earlier post Heq; simplify_eq/=.
      * intros Ht1 Ht2 Hp Hh. by apply (Hg [] last earlier post).
      * by apply (Hg (last :: pre) later earlier post).
    + intros [|x pre] later earlier post Heq; simplify_eq/=.
      * intros Ht1 Ht2 Hp Hh. eapply joins_false; [|done..].
        by rewrite <- Ht2.
      * by apply (Hg pre later earlier post).
Qed.

Lemma foldl_greedy (items : list (Item Bbox)) (st : LoopState Bbox) :
  greedy (docs_rev st) → greedy (docs_rev (foldl step st items)).
Proof.
  revert st. induction items as [|item items IH]; intros st Hg; [done|].
  simpl. by apply IH, loop_step_greedy.
Qed.

(** X23. The grouping is greedy: of two chunks in a row that are both
    text, on the same page and under the same heading, the first has at
    least 1000 characters. *)
Theorem process_items_greedy (items : list (Item Bbox))
    (pre : list (Doc Bbox)) (earlier later : Doc Bbox) (post : list (Doc Bbox)) :
  process_items source filename items = pre ++ earlier :: later :: post →
  doc_type earlier = "text" → doc_type later = "text" →
  doc_page earlier = doc_page later → doc_heading earlier = doc_heading later →
  1000 ≤ py_len (doc_content earlier).
Proof.
  unfold process_items. intros Heq.
  apply (foldl_greedy items start) with (pre := reverse post) (post := reverse pre).
  - intros [|x [|y l]] ???? Hnil; simplify_eq.
  - apply (inj reverse). rewrite Heq.
    rewrite reverse_app, !reverse_cons, !reverse_involutive.
    rewrite <- !app_assoc. done.
Qed.

End IngestionFacts.

(* ===================================================================== *)
(** * The further properties on concrete inputs *)
(* ===================================================================== *)

Import BookSearch BookTools ReferenceSearch ReferenceOps PdfReaderTool PdfSearch.
Import Text Ingestion Scenario.

Lemma records3_bboxes (r : Chunk) :
  r ∈ records (store_collection store3) → is_Some (bboxes_str r).
Proof.
  intros Hr. apply elem_of_cons in Hr as [->|Hr]; [by eexists|].
  apply elem_of_cons in Hr as [->|Hr]; [by eexists|]. inversion Hr.
Defined.

Lemma expand_same_page_stored_witness :
  chunk_a ∈ expand_same_page page3 [chunk_b] ∧
  chunk_a ∈ records page3 ∧
  ∃ p, chunk_page chunk_a = Some p ∧ get_error page3 p = None ∧
       ∃ a, a ∈ [chunk_b] ∧ default 1%Z (chunk_page a) = p.
Proof.
  assert (H : chunk_a ∈ expand_same_page page3 [chunk_b])
    by (vm_compute; apply list_elem_of_here).
  split; [exact H|]. exact (expand_same_page_stored page3 [chunk_b] chunk_a H).
Defined.

Lemma expand_same_page_whole_page_witness :
  chunk_content chunk_a ∈ chunk_content <$> expand_same_page page3 [chunk_b].
Proof.
  apply (expand_same_page_whole_page page3 [chunk_b] chunk_b chunk_a 3%Z).
  - apply list_elem_of_here.
  - reflexivity.
  - apply list_elem_of_further, list_elem_of_here.
  - reflexivity.
  - reflexivity.
Defined.

Lemma search_expanded_covers_hits_witness :
  search store3 "b" 5 true None ≠ [] ∧
  NoDup (chunk_content <$> search store3 "b" 5 true None) ∧
  ∀ h, h ∈ [chunk_b] → chunk_content h ∈ chunk_content <$> search store3 "b" 5 true None.
Proof.
  apply (search_expanded_covers_hits store3 "b" 5 None [chunk_b]).
  - reflexivity.
  - discriminate.
  - intros h Hh. apply elem_of_cons in Hh as [->|Hh]; [|inversion Hh].
    split; [apply list_elem_of_here|]. exists 3%Z. split; reflexivity.
Defined.

Lemma get_max_page_is_maximum_witness :
  get_all_error store3 = None ∧ get_max_page store3 = 3%Z ∧
  ∀ r, r ∈ records (store_collection store3) →
       (default 0 (chunk_page r) ≤ get_max_page store3)%Z.
Proof.
  split; [reflexivity|]. split; [reflexivity|].
  apply (get_max_page_is_maximum store3). reflexivity.
Defined.

Lemma fetch_by_metadata_answer_witness :
  ∃ out, fetch_by_metadata sort_raises store3 (WhereEq "page" (VInt 3)) 30 = Ok out ∧
         length out ≤ 30 ∧
         NoDup (chunk_content <$> out) ∧
         (∀ d, d ∈ out → d ∈ records (store_collection store3) ∧
                          matches (WhereEq "page" (VInt 3)) d = true) ∧
         Sorted (λ d1 d2, key_leb (meta_key d1) (meta_key d2) = true) out.
Proof.
  apply (fetch_by_metadata_answer store3 sort_raises (WhereEq "page" (VInt 3)) 30).
  exact records3_bboxes.
Defined.

Lemma get_intro_chunks_answer_witness :
  ∃ out, get_intro_chunks sort_raises store3 [3%Z; 1%Z] = Ok out ∧
         length out ≤ 20 ∧
         ∀ d, d ∈ out → ∃ p, p ∈ [3%Z; 1%Z] ∧ chunk_page d = Some p.
Proof.
  apply (get_intro_chunks_answer store3 sort_raises [3%Z; 1%Z]).
  exact records3_bboxes.
Defined.

Lemma make_batches_partition_witness :
  concat (make_batches 2 [1; 2; 3; 4; 5]) = [1; 2; 3; 4; 5] ∧
  Forall (λ batch, 0 < length batch ≤ 2) (make_batches 2 [1; 2; 3; 4; 5]) ∧
  length (make_batches 2 [1; 2; 3; 4; 5]) = (length [1; 2; 3; 4; 5] + 2 - 1) / 2.
Proof. apply (make_batches_partition 2 [1; 2; 3; 4; 5]). lia. Defined.

Lemma index_documents_returns_when_batches_recover_witness :
  index_documents upsert_recovers ["chunk"] 100 = Ok tt.
Proof.
  apply (index_documents_returns_when_batches_recover upsert_recovers ["chunk"] 100).
  - lia.
  - intros i Hi. exists 1. split; [vm_compute; lia|]. split; [|reflexivity].
    intros j Hj. assert (j = 0) as -> by lia.
    exists rate_limit. split; reflexivity.
  - reflexivity.
Defined.

Lemma index_documents_raises_on_exhausted_batch_witness :
  ∃ e, index_documents upsert_limited ["chunk"] 100 = Raise e.
Proof.
  apply (index_documents_raises_on_exhausted_batch upsert_limited ["chunk"] 100 0).
  - vm_compute. lia.
  - intros j Hj. exists rate_limit. split; reflexivity.
Defined.

Lemma retrieval_chain_at_most_five_distinct_witness :
  length python_docs ≤ 5 ∧ NoDup (isbn_key <$> python_docs) ∧
  ∀ d, d ∈ python_docs → isbn_key d ≠ "".
Proof.
  apply (retrieval_chain_at_most_five_distinct Z.ltb concat_fusion format_any all_up
           "python" (fst python_run) python_docs).
  vm_compute. reflexivity.
Defined.

Lemma lexical_failure_falls_back_to_semantic_witness :
  unique_ensemble_invoke concat_fusion lexical_down 20 "python"
  = ([SqlFullText "python" 20; SimilaritySearch "python" 20],
     Ok (unique_docs (concat_fusion
           [[]; (λ doc, mkDocument (page_content doc)
                          (<["isbn" := VStr (str (dict_get (metadata doc) "isbn" (VStr "")))]>
                           (metadata doc))) <$> [book "111" "Python co ban"]]))).
Proof.
  apply (lexical_failure_falls_back_to_semantic concat_fusion lexical_down "python"
           (Exn "OperationalError" "connection lost")).
  - reflexivity.
  - reflexivity.
Defined.


Lemma search_books_simple_records_witness :
  length simple_records ≤ 5 ∧
  NoDup (rec_isbn <$> simple_records) ∧
  ∀ r, r ∈ simple_records → strip (str (rec_isbn r)) ≠ "".
Proof.
  apply (search_books_simple_records Z.ltb concat_fusion format_any all_up
           "python" (fst simple_run) simple_records).
  vm_compute. reflexivity.
Defined.

Lemma cached_retriever_is_kept_witness :
  cache (run_calls build_fine ["b.pdf"; "a.pdf"] (run_calls build_fine ["a.pdf"] initial))
    !! "a.pdf" = Some (mkRetriever "a.pdf" 0).
Proof.
  apply (cached_retriever_is_kept build_fine ["b.pdf"; "a.pdf"]
           (run_calls build_fine ["a.pdf"] initial) "a.pdf" (mkRetriever "a.pdf" 0)).
  reflexivity.
Defined.

Lemma cached_retriever_was_built_witness :
  retriever_path (mkRetriever "b.pdf" 1) = "b.pdf" ∧
  builds (run_calls build_fine ["a.pdf"; "b.pdf"] initial)
    !! retriever_build (mkRetriever "b.pdf" 1) = Some ("b.pdf", true).
Proof.
  apply (cached_retriever_was_built build_fine ["a.pdf"; "b.pdf"] "b.pdf"
           (mkRetriever "b.pdf" 1)).
  reflexivity.
Defined.

Lemma process_items_well_formed_witness :
  doc_content second_doc ≠ "" ∧
  doc_source second_doc = "s.pdf" ∧ doc_filename second_doc = "s.pdf" ∧
  (doc_type second_doc = "heading" ∨ doc_type second_doc = "table"
   ∨ doc_type second_doc = "text") ∧
  (doc_type second_doc = "heading" → doc_heading second_doc = doc_content second_doc).
Proof.
  apply (process_items_well_formed "s.pdf" "s.pdf" two_items second_doc).
  vm_compute. apply list_elem_of_further, list_elem_of_here.
Defined.

Lemma two_items_bound (item : Item unit) :
  item ∈ two_items → py_len (item_content item) ≤ 1000.
Proof.
  intros Hi. apply elem_of_cons in Hi as [->|Hi]; [vm_compute; lia|].
  apply elem_of_cons in Hi as [->|Hi]; [vm_compute; lia|]. inversion Hi.
Defined.

Lemma process_items_size_witness :
  py_len (doc_content first_doc) ≤ 1000 + 1000.
Proof.
  apply (process_items_size "s.pdf" "s.pdf" two_items 1000 first_doc).
  - exact two_items_bound.
  - vm_compute. apply list_elem_of_here.
Defined.

Lemma process_items_greedy_witness :
  process_items "s.pdf" "s.pdf" two_items = [first_doc; second_doc] ∧
  1000 ≤ py_len (doc_content first_doc).
Proof.
  assert (H : process_items "s.pdf" "s.pdf" two_items = [] ++ first_doc :: second_doc :: [])
    by (vm_compute; reflexivity).
  split; [exact H|].
  apply (process_items_greedy "s.pdf" "s.pdf" two_items [] first_doc second_doc [] H);
    reflexivity.
Defined.
